(** * The descriptor bind helper of imr, embedded and verified

    Source: [src/imr/src/descriptor_bind_helper.cpp].

    The helper sits between a pipeline's reflected resource interface and
    the Vulkan device.  Everything it does is a call into the device, so
    the embedding threads a _world_ through every member function: the
    fields of [DescriptorBindHelper::Impl] together with the log of the
    device calls issued so far.  What the device answers (fresh handles,
    whether a descriptor set could be allocated) is not decided by this
    file: it is the interface [Driver], over which all general theorems
    are quantified.

    Conventions.
    - C enums are [Z], with the enumerators of [vulkan_core.h] as named
      constants; handles are [N] with [0] for [VK_NULL_HANDLE].
    - [uint32_t] counters wrap around modulo [2^32].
    - Set and binding indices are [nat].  [nsets] is the [size()] of the
      reflected map converted to [unsigned]; the conversion is the
      identity below [2^32] entries, which is assumed of every layout.
    - [assert] is modelled as compiled in (no [NDEBUG]): a failed
      assertion aborts the call and leaves the world as it was.
    - An exception leaves the world as it was at the [throw]; an
      out-of-range array access is reported as [Undefined] together with
      the world at the point of the access. *)

From Stdlib Require Import ZArith NArith List String Lia Permutation.
From stdpp Require Import base option numbers list gmap fin_maps.

Set Default Proof Using "Type".

(** ** Vulkan vocabulary *)

Definition VkDescriptorType := Z.
Definition VK_DESCRIPTOR_TYPE_COMBINED_IMAGE_SAMPLER : VkDescriptorType := 1%Z.
Definition VK_DESCRIPTOR_TYPE_STORAGE_IMAGE : VkDescriptorType := 3%Z.
Definition VK_DESCRIPTOR_TYPE_UNIFORM_BUFFER : VkDescriptorType := 6%Z.

Definition VkImageType := Z.
Definition VK_IMAGE_TYPE_1D : VkImageType := 0%Z.
Definition VK_IMAGE_TYPE_2D : VkImageType := 1%Z.
Definition VK_IMAGE_TYPE_3D : VkImageType := 2%Z.

Definition VkImageViewType := Z.
Definition VK_IMAGE_VIEW_TYPE_1D : VkImageViewType := 0%Z.
Definition VK_IMAGE_VIEW_TYPE_2D : VkImageViewType := 1%Z.
Definition VK_IMAGE_VIEW_TYPE_3D : VkImageViewType := 2%Z.
Definition VK_IMAGE_VIEW_TYPE_2D_ARRAY : VkImageViewType := 5%Z.

Definition VkImageLayout := Z.
Definition VK_IMAGE_LAYOUT_GENERAL : VkImageLayout := 1%Z.
Definition VK_IMAGE_LAYOUT_SHADER_READ_ONLY_OPTIMAL : VkImageLayout := 5%Z.

Definition VkPipelineBindPoint := Z.
Definition VK_PIPELINE_BIND_POINT_GRAPHICS : VkPipelineBindPoint := 0%Z.
Definition VK_PIPELINE_BIND_POINT_COMPUTE : VkPipelineBindPoint := 1%Z.

Definition VK_IMAGE_ASPECT_COLOR_BIT : N := 1%N.
Definition VK_DESCRIPTOR_POOL_CREATE_FREE_DESCRIPTOR_SET_BIT : N := 1%N.
Definition VK_NULL_HANDLE : N := 0%N.

(** Addition on [uint32_t]. *)
Definition uint32_add (a b : N) : N := ((a + b) mod 2 ^ 32)%N.

(** [static_cast<uint32_t>] of a container size. *)
Definition uint32_of_size (n : nat) : N := (N.of_nat n mod 2 ^ 32)%N.

Record VkDescriptorSetLayoutBinding := {
  binding : N;
  descriptorType : VkDescriptorType;
  descriptorCount : N;
  stageFlags : N
}.

(** Modelled from the spec: the declaration of [ReflectedLayout] is in a
    header that is not part of this translation unit.  Its
    [set_bindings] maps a set index to the ordered list of binding
    descriptors of that set.  The constructor only iterates over it and
    takes its size, so it is kept as the list of its entries in the
    order the iteration visits them. *)
Record ReflectedLayout := {
  set_bindings : list (nat * list VkDescriptorSetLayoutBinding)
}.

(** Modelled from the spec: [PipelineLayout], declared in the same
    header, exposes the declared sets (one table shape per set) and the
    layout handle. *)
Record PipelineLayout := {
  set_layouts : list N;
  pipeline_layout : N
}.

Record VkImageSubresourceRange := {
  aspectMask : N;
  baseMipLevel : N;
  levelCount : N;
  baseArrayLayer : N;
  layerCount : N
}.

Module Image.
(** Modelled from the spec: [imr::Image] is declared elsewhere; it
    exposes a native handle, a format, a dimensionality and a default
    sub-resource extent.  The result of
    [whole_image_subresource_range()] is a field. *)
Record t := {
  handle : N;
  format : Z;
  type : VkImageType;
  layerCount : N;
  whole_image_subresource_range : VkImageSubresourceRange
}.
End Image.

Module Buffer.
(** Modelled from the spec: [imr::Buffer], of which only the native
    handle is read. *)
Record t := {
  handle : N
}.
End Buffer.

(** [sType], [pNext], [flags] and the identity component swizzle are the
    same at both sites that build this struct and are left out. *)
Record VkImageViewCreateInfo := {
  image : N;
  viewType : VkImageViewType;
  format : Z;
  subresourceRange : VkImageSubresourceRange
}.

Record VkDescriptorImageInfo := {
  sampler : N;
  imageView : N;
  imageLayout : VkImageLayout
}.

Record VkDescriptorBufferInfo := {
  buffer : N;
  offset : N;
  range : N
}.

Record VkWriteDescriptorSet := {
  dstSet : N;
  dstBinding : nat;
  write_descriptorCount : N;
  write_descriptorType : VkDescriptorType;
  pImageInfo : option VkDescriptorImageInfo;
  pBufferInfo : option VkDescriptorBufferInfo
}.

Record VkDescriptorPoolCreateInfo := {
  flags : N;
  maxSets : N;
  pPoolSizes : list (VkDescriptorType * N)
}.

Record VkDescriptorSetAllocateInfo := {
  descriptorPool : N;
  descriptorSetCount : N;
  pSetLayouts : N
}.

(** ** The device, as a recording collaborator *)

(** One constructor per device entry point the helper calls.  The
    allocation event also records which slot of [sets] receives the
    result (the call is handed [&sets[set]]). *)
Inductive event :=
| CreateDescriptorPool (dev : N) (info : VkDescriptorPoolCreateInfo) (pool : N)
| AllocateDescriptorSets (dev : N) (info : VkDescriptorSetAllocateInfo)
    (slot : nat) (result : option N)
| CreateImageView (dev : N) (info : VkImageViewCreateInfo) (view : N)
| UpdateDescriptorSets (dev : N) (write : VkWriteDescriptorSet)
| CmdBindDescriptorSets (cmdbuf : N) (bind_point : VkPipelineBindPoint)
    (layout : N) (firstSet : nat) (set : N)
| DestroyDescriptorPool (dev : N) (pool : N)
| DestroyImageView (dev : N) (view : N)
| FreeSets.

Definition trace := list event.

(** What the device answers, as a function of everything it has been
    asked so far.  Pool and view creation hand back a handle (the source
    does not look at their [VkResult]); set allocation either succeeds
    with a handle or fails.  A successful allocation never yields the
    null handle. *)
Class Driver := {
  drv_create_pool : trace -> VkDescriptorPoolCreateInfo -> N;
  drv_create_view : trace -> VkImageViewCreateInfo -> N;
  drv_allocate_set : trace -> VkDescriptorSetAllocateInfo -> option N;
  drv_allocate_set_nonnull :
    forall t info h, drv_allocate_set t info = Some h -> h <> VK_NULL_HANDLE
}.

(** ** The helper's state *)

(** The closure [[=]() { vkDestroyImageView(deviceHandle, view, nullptr); }]
    with its two captures; both attachment entry points push this same
    lambda. *)
Record Closure := {
  cap_deviceHandle : N;
  cap_view : N
}.

Record Impl := {
  device : N;
  layout : PipelineLayout;
  reflected : ReflectedLayout;
  bind_point : VkPipelineBindPoint;
  nsets : nat;
  sets : list N;
  pool : N;
  cleanup : list Closure;
  committed : bool
}.

Definition with_sets (s : list N) (i : Impl) : Impl :=
  {| device := device i; layout := layout i; reflected := reflected i;
     bind_point := bind_point i; nsets := nsets i; sets := s;
     pool := pool i; cleanup := cleanup i; committed := committed i |}.

Definition with_cleanup (c : list Closure) (i : Impl) : Impl :=
  {| device := device i; layout := layout i; reflected := reflected i;
     bind_point := bind_point i; nsets := nsets i; sets := sets i;
     pool := pool i; cleanup := c; committed := committed i |}.

Definition with_committed (b : bool) (i : Impl) : Impl :=
  {| device := device i; layout := layout i; reflected := reflected i;
     bind_point := bind_point i; nsets := nsets i; sets := sets i;
     pool := pool i; cleanup := cleanup i; committed := b |}.

Record world := {
  impl : Impl;
  log : trace
}.

(** ** How a call ends *)

Inductive exn :=
| UnknownImageType            (* std::runtime_error("Unknown image type") *)
| VkCheckFailed.              (* thrown by CHECK_VK_THROW *)

Inductive ub :=
| SetsOutOfRange              (* sets[set] with set >= nsets *)
| SetLayoutsOutOfRange.       (* layout.set_layouts[set] past its size *)

Inductive outcome (A : Type) :=
| Return (a : A) (w : world)
| Throw (e : exn) (w : world)
| Abort (w : world)
| Undefined (u : ub) (w : world).
Arguments Return {A} a w.
Arguments Throw {A} e w.
Arguments Abort {A} w.
Arguments Undefined {A} u w.

Definition final_world {A} (o : outcome A) : world :=
  match o with
  | Return _ w | Throw _ w | Abort w | Undefined _ w => w
  end.

Definition M (A : Type) := world -> outcome A.

Definition ret {A} (a : A) : M A := fun w => Return a w.

Definition bind {A B} (m : M A) (k : A -> M B) : M B :=
  fun w =>
    match m w with
    | Return a w' => k a w'
    | Throw e w' => Throw e w'
    | Abort w' => Abort w'
    | Undefined u w' => Undefined u w'
    end.

Global Instance M_ret : MRet M := @ret.
Global Instance M_bind : MBind M := fun A B k m => bind m k.

Definition throw {A} (e : exn) : M A := fun w => Throw e w.
Definition undefined {A} (u : ub) : M A := fun w => Undefined u w.
Definition assert (cond : Impl -> bool) : M unit :=
  fun w => if cond (impl w) then Return tt w else Abort w.
Definition read {A} (f : Impl -> A) : M A := fun w => Return (f (impl w)) w.
Definition modify (f : Impl -> Impl) : M unit :=
  fun w => Return tt {| impl := f (impl w); log := log w |}.
Definition emit (e : event) : M unit :=
  fun w => Return tt {| impl := impl w; log := log w ++ [e] |}.

(** [for (x : xs) body(x)] *)
Fixpoint for_each {A} (xs : list A) (body : A -> M unit) : M unit :=
  match xs with
  | [] => ret tt
  | x :: xs' => body x;; for_each xs' body
  end.

(** [for (unsigned i = 0; i < n; i++) body(i)] *)
Definition for_range (n : nat) (body : nat -> M unit) : M unit :=
  for_each (seq 0 n) body.

(** ** Device calls *)

Section helper.
Context {drv : Driver}.

Definition vkCreateImageView (dev : N) (info : VkImageViewCreateInfo) : M N :=
  fun w =>
    let view := drv_create_view (log w) info in
    Return view {| impl := impl w;
                   log := log w ++ [CreateImageView dev info view] |}.

(** The call is handed [&sets[slot]]: on success the device writes the
    new handle there; on failure the slot keeps the null handle it held.
    The value returned tells whether the call succeeded. *)
Definition vkAllocateDescriptorSets (dev : N)
    (info : VkDescriptorSetAllocateInfo) (slot : nat) : M bool :=
  fun w =>
    let r := drv_allocate_set (log w) info in
    let ev := AllocateDescriptorSets dev info slot r in
    match r with
    | Some s =>
        Return true
          {| impl := with_sets (<[slot := s]> (sets (impl w))) (impl w);
             log := log w ++ [ev] |}
    | None => Return false {| impl := impl w; log := log w ++ [ev] |}
    end.

(** Modelled from the spec: the macro [CHECK_VK_THROW] comes from a
    header that is not part of this translation unit.  The specification
    has a failed allocation "fail with a resource-exhaustion error", so
    a result other than success throws. *)
Definition CHECK_VK_THROW (success : bool) : M unit :=
  if success then ret tt else throw VkCheckFailed.

Definition vkUpdateDescriptorSets (dev : N) (write : VkWriteDescriptorSet)
    : M unit :=
  emit (UpdateDescriptorSets dev write).

Definition vkCmdBindDescriptorSets (cmdbuf : N) (bp : VkPipelineBindPoint)
    (pl : N) (firstSet : nat) (set : N) : M unit :=
  emit (CmdBindDescriptorSets cmdbuf bp pl firstSet set).

(** ** [DescriptorBindHelper::Impl] *)

(** The lambda [access_map]: the entry for [key], created at zero when
    the map does not hold one yet. *)
Definition access_map (descriptor_counts : gmap Z N) (key : VkDescriptorType)
    : gmap Z N :=
  if decide (is_Some (descriptor_counts !! key)) then descriptor_counts
  else <[key := 0%N]> descriptor_counts.

(** [access_map(binding.descriptorType) += binding.descriptorCount] *)
Definition add_binding (descriptor_counts : gmap Z N)
    (b : VkDescriptorSetLayoutBinding) : gmap Z N :=
  let m := access_map descriptor_counts (descriptorType b) in
  <[descriptorType b :=
      uint32_add (default 0%N (m !! descriptorType b)) (descriptorCount b)]> m.

(** The two nested loops of the constructor. *)
Definition descriptor_counts (r : ReflectedLayout) : gmap Z N :=
  foldl (fun m entry => foldl add_binding m (snd entry)) ∅ (set_bindings r).

(** The constructor.  It starts a fresh recording; any earlier history
    of the device is part of the [Driver]. *)
Definition Impl_ctor (device : N) (layout : PipelineLayout)
    (reflected : ReflectedLayout) (bind_point : VkPipelineBindPoint) : world :=
  let nsets := length (set_bindings reflected) in
  let pool_sizes := map_to_list (descriptor_counts reflected) in
  let info := {| flags := VK_DESCRIPTOR_POOL_CREATE_FREE_DESCRIPTOR_SET_BIT;
                 maxSets := uint32_of_size (length (set_layouts layout));
                 pPoolSizes := pool_sizes |} in
  let pool := drv_create_pool [] info in
  {| impl := {| device := device; layout := layout; reflected := reflected;
                bind_point := bind_point; nsets := nsets;
                sets := replicate nsets VK_NULL_HANDLE;
                pool := pool; cleanup := []; committed := false |};
     log := [CreateDescriptorPool device info pool] |}.

(** Lazily allocates the set if we need it. *)
Definition get_or_create_set (set : nat) : M N :=
  sets_ ← read sets;
  match sets_ !! set with
  | None => undefined SetsOutOfRange
  | Some s =>
    (if decide (s = VK_NULL_HANDLE) then
       layout_ ← read layout;
       match set_layouts layout_ !! set with
       | None => undefined SetLayoutsOutOfRange
       | Some set_layout =>
         dev ← read device;
         pool_ ← read pool;
         ok ← vkAllocateDescriptorSets dev
                {| descriptorPool := pool_; descriptorSetCount := 1;
                   pSetLayouts := set_layout |} set;
         CHECK_VK_THROW ok
       end
     else ret tt);;
    sets_ ← read sets;
    match sets_ !! set with
    | None => undefined SetsOutOfRange
    | Some s' => ret s'
    end
  end.

Definition call_closure (fn : Closure) : event :=
  DestroyImageView (cap_deviceHandle fn) (cap_view fn).

(** The destructor: what the device has seen once the helper is gone. *)
Definition Impl_dtor (w : world) : trace :=
  let t1 := log w ++ [FreeSets] in
  let t2 := t1 ++ [DestroyDescriptorPool (device (impl w)) (pool (impl w))] in
  foldl (fun t fn => t ++ [call_closure fn]) t2 (cleanup (impl w)).

(** ** The attachment entry points *)

Definition image_type_to_view_type (type : VkImageType) : M VkImageViewType :=
  if decide (type = VK_IMAGE_TYPE_1D) then ret VK_IMAGE_VIEW_TYPE_1D
  else if decide (type = VK_IMAGE_TYPE_2D) then ret VK_IMAGE_VIEW_TYPE_2D
  else if decide (type = VK_IMAGE_TYPE_3D) then ret VK_IMAGE_VIEW_TYPE_3D
  else throw UnknownImageType.

Definition push_cleanup (dev view : N) : M unit :=
  modify (fun i =>
    with_cleanup
      (cleanup i ++ [{| cap_deviceHandle := dev; cap_view := view |}]) i).

Definition set_storage_image (set binding : nat) (image : Image.t)
    (subresource : option VkImageSubresourceRange)
    (image_view_type : option VkImageViewType) : M unit :=
  assert (fun i => negb (committed i));;
  dev ← read device;
  final_image_view_type ←
    match image_view_type with
    | Some t => ret t
    | None => image_type_to_view_type (Image.type image)
    end;
  let subresource_range :=
    match subresource with
    | Some r => r
    | None => Image.whole_image_subresource_range image
    end in
  view ← vkCreateImageView dev
            {| image := Image.handle image;
               viewType := final_image_view_type;
               format := Image.format image;
               subresourceRange := subresource_range |};
  dst ← get_or_create_set set;
  vkUpdateDescriptorSets dev
    {| dstSet := dst; dstBinding := binding; write_descriptorCount := 1;
       write_descriptorType := VK_DESCRIPTOR_TYPE_STORAGE_IMAGE;
       pImageInfo := Some {| sampler := VK_NULL_HANDLE; imageView := view;
                             imageLayout := VK_IMAGE_LAYOUT_GENERAL |};
       pBufferInfo := None |};;
  push_cleanup dev view.

(** The sub-resource range [set_combined_image_sampler] ends up with
    after its five assignments: every field of the image's own range is
    overwritten. *)
Definition combined_subresource_range (image : Image.t)
    : VkImageSubresourceRange :=
  let r0 := Image.whole_image_subresource_range image in
  let r1 := {| aspectMask := VK_IMAGE_ASPECT_COLOR_BIT;
               baseMipLevel := baseMipLevel r0; levelCount := levelCount r0;
               baseArrayLayer := baseArrayLayer r0;
               layerCount := layerCount r0 |} in
  let r2 := {| aspectMask := aspectMask r1; baseMipLevel := 0;
               levelCount := levelCount r1;
               baseArrayLayer := baseArrayLayer r1;
               layerCount := layerCount r1 |} in
  let r3 := {| aspectMask := aspectMask r2; baseMipLevel := baseMipLevel r2;
               levelCount := 1; baseArrayLayer := baseArrayLayer r2;
               layerCount := layerCount r2 |} in
  let r4 := {| aspectMask := aspectMask r3; baseMipLevel := baseMipLevel r3;
               levelCount := levelCount r3; baseArrayLayer := 0;
               layerCount := layerCount r3 |} in
  {| aspectMask := aspectMask r4; baseMipLevel := baseMipLevel r4;
     levelCount := levelCount r4; baseArrayLayer := baseArrayLayer r4;
     layerCount := Image.layerCount image |}.

Definition combined_view_info (image : Image.t) : VkImageViewCreateInfo :=
  {| image := Image.handle image;
     viewType := VK_IMAGE_VIEW_TYPE_2D_ARRAY;
     format := Image.format image;
     subresourceRange := combined_subresource_range image |}.

Definition set_combined_image_sampler (set binding : nat) (image : Image.t)
    (sampler_ : N) : M unit :=
  assert (fun i => negb (committed i));;
  dev ← read device;
  view ← vkCreateImageView dev (combined_view_info image);
  let imageInfo := {| sampler := sampler_; imageView := view;
                      imageLayout := VK_IMAGE_LAYOUT_SHADER_READ_ONLY_OPTIMAL |} in
  dst ← get_or_create_set set;
  vkUpdateDescriptorSets dev
    {| dstSet := dst; dstBinding := binding; write_descriptorCount := 1;
       write_descriptorType := VK_DESCRIPTOR_TYPE_COMBINED_IMAGE_SAMPLER;
       pImageInfo := Some imageInfo; pBufferInfo := None |};;
  push_cleanup dev view.

(** This entry point is handed the device by its caller and opens with
    the descriptor write: it has no [assert]. *)
Definition set_uniform_buffer (device_ : N) (set binding : nat)
    (buffer_ : Buffer.t) (offset_ range_ : N) : M unit :=
  dst ← get_or_create_set set;
  vkUpdateDescriptorSets device_
    {| dstSet := dst; dstBinding := binding; write_descriptorCount := 1;
       write_descriptorType := VK_DESCRIPTOR_TYPE_UNIFORM_BUFFER;
       pImageInfo := None;
       pBufferInfo := Some {| buffer := Buffer.handle buffer_;
                              offset := offset_; range := range_ |} |}.

(** ** Publishing *)

(** The loop body that [commit] and [commit_frame] both spell out. *)
Definition bind_loop_body (cmdbuf : N) (set : nat) : M unit :=
  sets_ ← read sets;
  match sets_ !! set with
  | None => undefined SetsOutOfRange
  | Some s =>
    if decide (s = VK_NULL_HANDLE) then ret tt
    else
      bp ← read bind_point;
      layout_ ← read layout;
      vkCmdBindDescriptorSets cmdbuf bp (pipeline_layout layout_) set s
  end.

Definition commit (cmdbuf : N) : M unit :=
  assert (fun i => negb (committed i));;
  n ← read nsets;
  for_range n (bind_loop_body cmdbuf);;
  modify (with_committed true).

Definition commit_frame (cmdbuf : N) : M unit :=
  n ← read nsets;
  for_range n (bind_loop_body cmdbuf).

End helper.

(** ** Sequences of calls *)

(** The member functions a caller can invoke between construction and
    destruction.  [get_or_create_set] is listed for the statements about
    repeated look-ups. *)
Inductive call :=
| Call_get_or_create_set (set : nat)
| Call_set_storage_image (set binding : nat) (image : Image.t)
    (subresource : option VkImageSubresourceRange)
    (image_view_type : option VkImageViewType)
| Call_set_combined_image_sampler (set binding : nat) (image : Image.t)
    (sampler_ : N)
| Call_set_uniform_buffer (device_ : N) (set binding : nat)
    (buffer_ : Buffer.t) (offset_ range_ : N)
| Call_commit (cmdbuf : N)
| Call_commit_frame (cmdbuf : N).

Definition run_call {drv : Driver} (c : call) : M unit :=
  match c with
  | Call_get_or_create_set set => get_or_create_set set;; ret tt
  | Call_set_storage_image set b image sub vt =>
      set_storage_image set b image sub vt
  | Call_set_combined_image_sampler set b image s =>
      set_combined_image_sampler set b image s
  | Call_set_uniform_buffer d set b buf o r =>
      set_uniform_buffer d set b buf o r
  | Call_commit cmdbuf => commit cmdbuf
  | Call_commit_frame cmdbuf => commit_frame cmdbuf
  end.

(** The caller gets control back when the call returns or when it
    catches the exception the call threw; an abort or an out-of-range
    access ends the run. *)
Definition resumes {A} (o : outcome A) : option world :=
  match o with
  | Return _ w | Throw _ w => Some w
  | Abort _ | Undefined _ _ => None
  end.

Inductive step {drv : Driver} : world -> world -> Prop :=
| step_call (c : call) (w w' : world) :
    resumes (run_call c w) = Some w' -> step w w'.

Inductive steps {drv : Driver} : world -> world -> Prop :=
| steps_here (w : world) : steps w w
| steps_more (w1 w2 w3 : world) : steps w1 w2 -> step w2 w3 -> steps w1 w3.

(** The worlds a helper built over [(device, layout, reflected,
    bind_point)] can be in. *)
Definition reachable {drv : Driver} (device_ : N) (layout_ : PipelineLayout)
    (reflected_ : ReflectedLayout) (bp : VkPipelineBindPoint) (w : world) : Prop :=
  steps (Impl_ctor device_ layout_ reflected_ bp) w.

(** The set index a call looks up, if it looks one up. *)
Definition target_set (c : call) : option nat :=
  match c with
  | Call_get_or_create_set set
  | Call_set_storage_image set _ _ _ _
  | Call_set_combined_image_sampler set _ _ _
  | Call_set_uniform_buffer _ set _ _ _ _ => Some set
  | Call_commit _ | Call_commit_frame _ => None
  end.

(** [commit_frame] once per command buffer of [cmdbufs], in order. *)
Definition commit_frames (cmdbufs : list N) : M unit :=
  for_each cmdbufs commit_frame.

(** ** Observations on a log *)

(** Handles of the descriptor sets successfully allocated into slot [i]. *)
Definition allocations (i : nat) (t : trace) : list N :=
  omap (fun e =>
          match e with
          | AllocateDescriptorSets _ _ slot (Some h) =>
              if decide (slot = i) then Some h else None
          | _ => None
          end) t.

Definition created_views (t : trace) : list N :=
  omap (fun e => match e with CreateImageView _ _ v => Some v | _ => None end) t.

Definition released_views (t : trace) : list N :=
  omap (fun e => match e with DestroyImageView _ v => Some v | _ => None end) t.

(** Events by which the helper tears something down. *)
Definition is_teardown (e : event) : bool :=
  match e with
  | DestroyDescriptorPool _ _ | DestroyImageView _ _ | FreeSets => true
  | _ => false
  end.

(** ** Reference definitions, following the specification's wording *)

(** The bind the publishing loop owes set index [set]: the table of
    that index if one was allocated, nothing otherwise. *)
Definition table_bind (i : Impl) (cmdbuf : N) (set : nat) : option event :=
  match sets i !! set with
  | Some s =>
      if decide (s = VK_NULL_HANDLE) then None
      else Some (CmdBindDescriptorSets cmdbuf (bind_point i)
                   (pipeline_layout (layout i)) set s)
  | None => None
  end.

(** The binds of the publishing loop, for every set index from 0 up to
    the set count. *)
Definition published (i : Impl) (cmdbuf : N) : list event :=
  omap (table_bind i cmdbuf) (seq 0 (nsets i)).

(** Every binding descriptor of kind [k], across every set. *)
Definition bindings_of_kind (k : VkDescriptorType) (r : ReflectedLayout)
    : list VkDescriptorSetLayoutBinding :=
  filter (fun b => descriptorType b = k) (concat (map snd (set_bindings r))).

(** The sum of [count] over them, as a natural number (no wrap-around). *)
Definition kind_total (k : VkDescriptorType) (r : ReflectedLayout) : N :=
  foldr N.add 0%N (map descriptorCount (bindings_of_kind k r)).

(** [r'] lists the sets of [r] in another order, each with its bindings
    in another order. *)
Definition reordered (r r' : ReflectedLayout) : Prop :=
  exists l,
    Forall2 (fun e e' => fst e = fst e' /\ Permutation (snd e) (snd e'))
            (set_bindings r) l
    /\ Permutation l (set_bindings r').

(** The view shape the spec derives from an image's dimensionality. *)
Definition default_view_shape (type : VkImageType) : option VkImageViewType :=
  if decide (type = VK_IMAGE_TYPE_1D) then Some VK_IMAGE_VIEW_TYPE_1D
  else if decide (type = VK_IMAGE_TYPE_2D) then Some VK_IMAGE_VIEW_TYPE_2D
  else if decide (type = VK_IMAGE_TYPE_3D) then Some VK_IMAGE_VIEW_TYPE_3D
  else None.

(** The view type [set_storage_image] settles on: the caller's if one
    is given, the default shape otherwise. *)
Definition resolved_view_type (image : Image.t)
    (image_view_type : option VkImageViewType) : option VkImageViewType :=
  match image_view_type with
  | Some t => Some t
  | None => default_view_shape (Image.type image)
  end.

(** The create-info [set_storage_image] fills in for view type [vt]. *)
Definition storage_view_info (image : Image.t)
    (subresource : option VkImageSubresourceRange) (vt : VkImageViewType)
    : VkImageViewCreateInfo :=
  {| image := Image.handle image;
     viewType := vt;
     format := Image.format image;
     subresourceRange :=
       match subresource with
       | Some r => r
       | None => Image.whole_image_subresource_range image
       end |}.

(** The descriptor writes of the three entry points. *)
Definition storage_image_write (dst : N) (binding : nat) (view : N)
    : VkWriteDescriptorSet :=
  {| dstSet := dst; dstBinding := binding; write_descriptorCount := 1;
     write_descriptorType := VK_DESCRIPTOR_TYPE_STORAGE_IMAGE;
     pImageInfo := Some {| sampler := VK_NULL_HANDLE; imageView := view;
                           imageLayout := VK_IMAGE_LAYOUT_GENERAL |};
     pBufferInfo := None |}.

Definition combined_image_sampler_write (dst : N) (binding : nat)
    (view sampler_ : N) : VkWriteDescriptorSet :=
  {| dstSet := dst; dstBinding := binding; write_descriptorCount := 1;
     write_descriptorType := VK_DESCRIPTOR_TYPE_COMBINED_IMAGE_SAMPLER;
     pImageInfo :=
       Some {| sampler := sampler_; imageView := view;
               imageLayout := VK_IMAGE_LAYOUT_SHADER_READ_ONLY_OPTIMAL |};
     pBufferInfo := None |}.

Definition uniform_buffer_write (dst : N) (binding : nat) (buffer_ : Buffer.t)
    (offset_ range_ : N) : VkWriteDescriptorSet :=
  {| dstSet := dst; dstBinding := binding; write_descriptorCount := 1;
     write_descriptorType := VK_DESCRIPTOR_TYPE_UNIFORM_BUFFER;
     pImageInfo := None;
     pBufferInfo := Some {| buffer := Buffer.handle buffer_;
                            offset := offset_; range := range_ |} |}.

(** What an image attachment does once its view exists: look the table
    up, write the slot, register the release of the view. *)
Definition after_view {drv : Driver} (set : nat) (dev view : N)
    (write : N -> VkWriteDescriptorSet) (w1 : world) : outcome unit :=
  match get_or_create_set set w1 with
  | Return dst w2 =>
      Return tt
        {| impl := with_cleanup
                     (cleanup (impl w2)
                      ++ [{| cap_deviceHandle := dev; cap_view := view |}])
                     (impl w2);
           log := log w2 ++ [UpdateDescriptorSets dev (write dst)] |}
  | Throw e w2 => Throw e w2
  | Abort w2 => Abort w2
  | Undefined u w2 => Undefined u w2
  end.

(** ** Two concrete devices and a few concrete inputs *)

(** A device that numbers its handles: the answer to the n-th call is
    the handle n+1.  Allocation always succeeds. *)
Definition numbering_driver : Driver.
Proof.
  refine {| drv_create_pool t _ := N.of_nat (S (length t));
            drv_create_view t _ := N.of_nat (S (length t));
            drv_allocate_set t _ := Some (N.of_nat (S (length t))) |}.
  intros t info h [= <-]. unfold VK_NULL_HANDLE. lia.
Defined.

(** The same device out of descriptor memory: every allocation fails. *)
Definition exhausted_driver : Driver.
Proof.
  refine {| drv_create_pool t _ := N.of_nat (S (length t));
            drv_create_view t _ := N.of_nat (S (length t));
            drv_allocate_set t _ := None |}.
  intros t info h [=].
Defined.

Definition a_binding (b : N) (ty : VkDescriptorType) (n : N)
    : VkDescriptorSetLayoutBinding :=
  {| binding := b; descriptorType := ty; descriptorCount := n; stageFlags := 32 |}.

(** Set 0 has one storage-image slot, set 1 one uniform-buffer slot. *)
Definition two_set_reflection : ReflectedLayout :=
  {| set_bindings :=
       [ (0, [a_binding 0 VK_DESCRIPTOR_TYPE_STORAGE_IMAGE 1]);
         (1, [a_binding 0 VK_DESCRIPTOR_TYPE_UNIFORM_BUFFER 1]) ] |}.

Definition two_set_reflection_swapped : ReflectedLayout :=
  {| set_bindings :=
       [ (1, [a_binding 0 VK_DESCRIPTOR_TYPE_UNIFORM_BUFFER 1]);
         (0, [a_binding 0 VK_DESCRIPTOR_TYPE_STORAGE_IMAGE 1]) ] |}.

Definition two_set_layout : PipelineLayout :=
  {| set_layouts := [101%N; 102%N]; pipeline_layout := 100%N |}.

(** One set whose two storage-image arrays hold 2^31 descriptors each. *)
Definition overflowing_reflection : ReflectedLayout :=
  {| set_bindings :=
       [ (0, [a_binding 0 VK_DESCRIPTOR_TYPE_STORAGE_IMAGE (2 ^ 31);
              a_binding 1 VK_DESCRIPTOR_TYPE_STORAGE_IMAGE (2 ^ 31)]) ] |}.

Definition whole_range (layers : N) : VkImageSubresourceRange :=
  {| aspectMask := VK_IMAGE_ASPECT_COLOR_BIT; baseMipLevel := 0;
     levelCount := 4; baseArrayLayer := 0; layerCount := layers |}.

Definition image_2d : Image.t :=
  {| Image.handle := 7; Image.format := 37; Image.type := VK_IMAGE_TYPE_2D;
     Image.layerCount := 1; Image.whole_image_subresource_range := whole_range 1 |}.

(** An image whose type is none of the three dimensionalities
    ([VK_IMAGE_TYPE_MAX_ENUM]). *)
Definition image_odd : Image.t :=
  {| Image.handle := 8; Image.format := 37; Image.type := 2147483647%Z;
     Image.layerCount := 1; Image.whole_image_subresource_range := whole_range 1 |}.

Definition a_buffer : Buffer.t := {| Buffer.handle := 9 |}.

Definition two_set_helper (drv : Driver) : world :=
  Impl_ctor (drv := drv) 1 two_set_layout two_set_reflection
    VK_PIPELINE_BIND_POINT_COMPUTE.

(** The fresh two-set helper after a storage image has been attached to
    set 0, binding 0. *)
Definition two_set_helper_attached : world :=
  final_world
    (set_storage_image (drv := numbering_driver) 0 0 image_2d None None
       (two_set_helper numbering_driver)).

(** The fresh two-set helper after a look-up of set 0. *)
Definition two_set_helper_looked_up : world :=
  final_world
    (get_or_create_set (drv := numbering_driver) 0
       (two_set_helper numbering_driver)).

(** The world after [commit] on a fresh two-set helper. *)
Definition two_set_helper_committed : world :=
  final_world (commit 50 (two_set_helper numbering_driver)).

(** Whether a call gets as far as its table look-up: the attachment of
    an image first passes the assertion and, for a storage image without
    an explicit view type, the derivation of the default one. *)
Definition reaches_lookup (c : call) (w : world) : Prop :=
  match c with
  | Call_get_or_create_set _ | Call_set_uniform_buffer _ _ _ _ _ _ => True
  | Call_set_storage_image _ _ image _ vt =>
      committed (impl w) = false
      /\ (vt = None -> is_Some (default_view_shape (Image.type image)))
  | Call_set_combined_image_sampler _ _ _ _ => committed (impl w) = false
  | Call_commit _ | Call_commit_frame _ => False
  end.

(** ** The invariant of a live helper *)

(** What holds of every world between construction and destruction of a
    helper built over [(d, l, r, bp)]: the constructor's arguments and
    the set count stay put, the table array keeps the length it was
    given, slot [i] holds a table exactly when the log shows the one
    allocation that filled it, a slot that holds a table has a set
    layout, and nothing has been torn down. *)
Record helper_inv (d : N) (l : PipelineLayout) (r : ReflectedLayout)
    (bp : VkPipelineBindPoint) (w : world) : Prop := {
  inv_device : device (impl w) = d;
  inv_layout : layout (impl w) = l;
  inv_reflected : reflected (impl w) = r;
  inv_bind_point : bind_point (impl w) = bp;
  inv_nsets : nsets (impl w) = length (set_bindings r);
  inv_sets : length (sets (impl w)) = length (set_bindings r);
  inv_alloc : forall i,
    allocations i (log w) =
      match sets (impl w) !! i with
      | Some s => if decide (s = VK_NULL_HANDLE) then [] else [s]
      | None => []
      end;
  inv_layouts : forall i s,
    sets (impl w) !! i = Some s -> s <> VK_NULL_HANDLE ->
    i < length (set_layouts l);
  inv_live : Forall (fun e => is_teardown e = false) (log w)
}.

(** The invariant as a two-state property that ignores its origin. *)
Definition live (d : N) (l : PipelineLayout) (r : ReflectedLayout)
    (bp : VkPipelineBindPoint) : world -> world -> Prop :=
  fun _ w => helper_inv d l r bp w.

(** [w'] has seen everything [w] has, and possibly more. *)
Definition log_extends (w w' : world) : Prop :=
  exists t, log w' = log w ++ t.

(** A two-state property [R] of worlds that every step of a computation
    maintains with respect to a fixed origin. *)
Definition respects (R : world -> world -> Prop) {A} (m : M A) : Prop :=
  forall w0 w, R w0 w -> R w0 (final_world (m w)).

(** ** The pipelines that hand out helpers *)

Module ComputePipeline.
(** Modelled from the spec: the implementation record of
    [ComputePipeline] is declared in a header outside this translation
    unit.  [create_bind_helper] reads its device, its pipeline layout
    and the reflected layout of its entry point. *)
Record t := {
  device : N;
  layout : PipelineLayout;
  entry_point_reflected : ReflectedLayout
}.
End ComputePipeline.

Module GraphicsPipeline.
(** Modelled from the spec: likewise for [GraphicsPipeline], whose
    reflected layout is its [final_layout]. *)
Record t := {
  device_ : N;
  layout : PipelineLayout;
  final_layout : ReflectedLayout
}.
End GraphicsPipeline.

(** [ComputePipeline::create_bind_helper]: the [DescriptorBindHelper] it
    returns owns nothing but the [Impl] built here, so the helper is
    this world. *)
Definition ComputePipeline_create_bind_helper {drv : Driver}
    (p : ComputePipeline.t) : world :=
  Impl_ctor (ComputePipeline.device p) (ComputePipeline.layout p)
    (ComputePipeline.entry_point_reflected p) VK_PIPELINE_BIND_POINT_COMPUTE.

(** [GraphicsPipeline::create_bind_helper] *)
Definition GraphicsPipeline_create_bind_helper {drv : Driver}
    (p : GraphicsPipeline.t) : world :=
  Impl_ctor (GraphicsPipeline.device_ p) (GraphicsPipeline.layout p)
    (GraphicsPipeline.final_layout p) VK_PIPELINE_BIND_POINT_GRAPHICS.

(** [~DescriptorBindHelper]: its body is empty; destroying the
    [unique_ptr] member runs the destructor of [Impl]. *)
Definition DescriptorBindHelper_dtor (w : world) : trace := Impl_dtor w.

(** ** Further observations on a log *)

(** The table a successful allocation yields. *)
Definition allocation_of (e : event) : option N :=
  match e with
  | AllocateDescriptorSets _ _ _ (Some h) => Some h
  | _ => None
  end.

Definition view_of (e : event) : option N :=
  match e with CreateImageView _ _ v => Some v | _ => None end.

Definition write_of (e : event) : option (N * VkWriteDescriptorSet) :=
  match e with
  | UpdateDescriptorSets dev write => Some (dev, write)
  | _ => None
  end.

Definition bind_of (e : event) : option event :=
  match e with CmdBindDescriptorSets _ _ _ _ _ => Some e | _ => None end.

Definition no_event (e : event) : option unit := None.

(** The table a successful allocation puts into slot [j]. *)
Definition allocation_at (j : nat) (e : event) : option N :=
  match e with
  | AllocateDescriptorSets _ _ slot (Some h) =>
      if decide (slot = j) then Some h else None
  | _ => None
  end.

(** Handles of all descriptor sets successfully allocated, whatever the
    slot. *)
Definition all_allocations (t : trace) : list N := omap allocation_of t.

Definition bind_events (t : trace) : list event := omap bind_of t.

(** The descriptor writes, each with the device it was issued on. *)
Definition writes (t : trace) : list (N * VkWriteDescriptorSet) :=
  omap write_of t.

(** The tables the helper holds: the non-null entries of its array. *)
Definition tables (i : Impl) : list N :=
  filter (fun s => s <> VK_NULL_HANDLE) (sets i).

(** A computation leaves an observation [f] of the log and an
    observation [g] of the helper's fields as they were at the origin. *)
Definition preserved {X Y : Type} (f : event -> option X) (g : Impl -> Y)
    (w0 w : world) : Prop :=
  omap f (log w) = omap f (log w0) /\ g (impl w) = g (impl w0).

(** The calls that are not [commit]. *)
Definition is_commit (c : call) : bool :=
  match c with Call_commit _ => true | _ => false end.

(** The calls that publish. *)
Definition is_publish (c : call) : bool :=
  match c with Call_commit _ | Call_commit_frame _ => true | _ => false end.

(** The calls a committed helper still answers: those that do not
    assert on the flag. *)
Definition answers_when_committed (c : call) : bool :=
  match c with
  | Call_get_or_create_set _ | Call_set_uniform_buffer _ _ _ _ _ _
  | Call_commit_frame _ => true
  | Call_set_storage_image _ _ _ _ _ | Call_set_combined_image_sampler _ _ _ _
  | Call_commit _ => false
  end.

(** The successful allocations in the log are the tables the helper
    holds. *)
Definition tables_accounted (w : world) : Prop :=
  Permutation (all_allocations (log w)) (tables (impl w)).

(** Every registered release action is for a view the helper created,
    in the order of creation, and captures the device [d]. *)
Definition cleanup_accounted (d : N) (w : world) : Prop :=
  sublist (map cap_view (cleanup (impl w))) (created_views (log w))
  /\ Forall (fun fn => cap_deviceHandle fn = d) (cleanup (impl w)).

(** A write is either an old one or goes to the table the call has
    just looked up. *)
Definition fresh_write (w' : world) (write : VkWriteDescriptorSet) : Prop :=
  write_descriptorCount write = 1%N
  /\ exists slot,
       sets (impl w') !! slot = Some (dstSet write)
       /\ dstSet write <> VK_NULL_HANDLE.

(** A bind of the helper's own kind: at its bind point, on its pipeline
    layout, of a table it holds. *)
Definition own_bind (bp : VkPipelineBindPoint) (l : PipelineLayout)
    (w : world) (e : event) : Prop :=
  exists c i s,
    e = CmdBindDescriptorSets c bp (pipeline_layout l) i s
    /\ sets (impl w) !! i = Some s /\ s <> VK_NULL_HANDLE.

(** ** More concrete inputs *)

(** A device whose first descriptor-set allocation fails and whose
    later ones succeed. *)
Definition flaky_driver : Driver.
Proof.
  refine {| drv_create_pool t _ := N.of_nat (S (length t));
            drv_create_view t _ := N.of_nat (S (length t));
            drv_allocate_set t _ :=
              if existsb (fun e => match e with
                                   | AllocateDescriptorSets _ _ _ _ => true
                                   | _ => false
                                   end) t
              then Some (N.of_nat (S (length t))) else None |}.
  intros t info h. destruct (existsb _ t); [|done].
  intros [= <-]. unfold VK_NULL_HANDLE. lia.
Defined.

(** A pipeline layout that declares one set only. *)
Definition one_set_layout : PipelineLayout :=
  {| set_layouts := [101%N]; pipeline_layout := 100%N |}.

Definition image_3d : Image.t :=
  {| Image.handle := 6; Image.format := 37; Image.type := VK_IMAGE_TYPE_3D;
     Image.layerCount := 1; Image.whole_image_subresource_range := whole_range 1 |}.

Definition a_compute_pipeline : ComputePipeline.t :=
  {| ComputePipeline.device := 1; ComputePipeline.layout := two_set_layout;
     ComputePipeline.entry_point_reflected := two_set_reflection |}.

Definition a_graphics_pipeline : GraphicsPipeline.t :=
  {| GraphicsPipeline.device_ := 1; GraphicsPipeline.layout := two_set_layout;
     GraphicsPipeline.final_layout := two_set_reflection |}.

(** The two-set helper of a compute pipeline after a storage image has
    been attached to set 0 and the helper has been committed. *)
Definition a_compute_helper_published : world :=
  final_world
    (commit 50
       (final_world
          (set_storage_image (drv := numbering_driver) 0 0 image_2d None None
             (ComputePipeline_create_bind_helper (drv := numbering_driver)
                a_compute_pipeline)))).

(** The attached two-set helper after a second storage image has been
    attached to the same set and binding. *)
Definition two_set_helper_attached_twice : world :=
  final_world
    (set_storage_image (drv := numbering_driver) 0 0 image_3d None None
       two_set_helper_attached).

(** * Proofs *)

Section monad_facts.

Lemma bind_unfold {A B} (m : M A) (k : A -> M B) (w : world) :
  (m ≫= k) w =
    match m w with
    | Return a w' => k a w'
    | Throw e w' => Throw e w'
    | Abort w' => Abort w'
    | Undefined u w' => Undefined u w'
    end.
Proof. reflexivity. Qed.

Lemma final_world_bind {A B} (m : M A) (k : A -> M B) (w : world) :
  final_world ((m ≫= k) w) =
    match m w with
    | Return a w' => final_world (k a w')
    | _ => final_world (m w)
    end.
Proof. rewrite bind_unfold. by destruct (m w). Qed.

Variable R : world -> world -> Prop.

Lemma respects_ret {A} (a : A) : respects R (ret a).
Proof. by intros w0 w. Qed.

Lemma respects_mret {A} (a : A) : respects R (mret a : M A).
Proof. by intros w0 w. Qed.

Lemma respects_throw {A} e : respects R (throw e : M A).
Proof. by intros w0 w. Qed.

Lemma respects_undefined {A} u : respects R (undefined u : M A).
Proof. by intros w0 w. Qed.

Lemma respects_read {A} (f : Impl -> A) : respects R (read f).
Proof. intros w0 w. by destruct w. Qed.

Lemma respects_assert cond : respects R (assert cond).
Proof. intros w0 w. unfold assert. by destruct (cond _). Qed.

Lemma respects_check ok : respects R (CHECK_VK_THROW ok).
Proof. destruct ok; [apply respects_ret|apply respects_throw]. Qed.

Lemma respects_bind {A B} (m : M A) (k : A -> M B) :
  respects R m -> (forall a, respects R (k a)) -> respects R (m ≫= k).
Proof.
  intros Hm Hk w0 w HR. rewrite final_world_bind.
  specialize (Hm w0 w HR). destruct (m w); simpl in *; auto.
  by apply Hk.
Qed.

Lemma respects_for_each {A} (xs : list A) (body : A -> M unit) :
  (forall x, respects R (body x)) -> respects R (for_each xs body).
Proof.
  intros Hb. induction xs as [|x xs IH]; simpl.
  - apply respects_ret.
  - apply respects_bind; auto.
Qed.

End monad_facts.

Create HintDb helper discriminated.

#[export] Hint Resolve respects_ret respects_mret respects_throw
  respects_undefined respects_read respects_assert respects_check : helper.

(** Splits a computation along its binds and closes the leaves from the
    [helper] hints. *)
Ltac respects_steps :=
  repeat first
    [ solve [auto with helper]
    | apply respects_bind; [|intros]
    | apply respects_for_each; intros
    | match goal with |- respects _ (match ?x with _ => _ end) => destruct x end
    | match goal with |- respects _ (if ?x then _ else _) => destruct x end ].

Section log_facts.

Lemma allocations_app i t1 t2 :
  allocations i (t1 ++ t2) = allocations i t1 ++ allocations i t2.
Proof. apply omap_app. Qed.

Lemma created_views_app t1 t2 :
  created_views (t1 ++ t2) = created_views t1 ++ created_views t2.
Proof. apply omap_app. Qed.

Lemma released_views_app t1 t2 :
  released_views (t1 ++ t2) = released_views t1 ++ released_views t2.
Proof. apply omap_app. Qed.

Lemma released_views_live t :
  Forall (fun e => is_teardown e = false) t -> released_views t = [].
Proof.
  induction 1 as [|e t He _ IH]; [done|].
  destruct e; simpl in *; try done; by rewrite ?IH.
Qed.

Lemma log_extends_refl w : log_extends w w.
Proof. exists []. by rewrite app_nil_r. Qed.

Lemma log_extends_trans w1 w2 w3 :
  log_extends w1 w2 -> log_extends w2 w3 -> log_extends w1 w3.
Proof.
  intros [t1 E1] [t2 E2]. exists (t1 ++ t2). by rewrite E2, E1, app_assoc.
Qed.

End log_facts.

Section helper_facts.
Context {drv : Driver}.

(** *** [get_or_create_set], case by case *)

Lemma get_or_create_set_unfold set w :
  get_or_create_set set w =
    match sets (impl w) !! set with
    | None => Undefined SetsOutOfRange w
    | Some s =>
      if decide (s = VK_NULL_HANDLE) then
        match set_layouts (layout (impl w)) !! set with
        | None => Undefined SetLayoutsOutOfRange w
        | Some sl =>
          let info := {| descriptorPool := pool (impl w);
                         descriptorSetCount := 1; pSetLayouts := sl |} in
          let ev := AllocateDescriptorSets (device (impl w)) info set in
          match drv_allocate_set (log w) info with
          | None =>
              Throw VkCheckFailed
                {| impl := impl w; log := log w ++ [ev None] |}
          | Some s' =>
              Return s'
                {| impl := with_sets (<[set := s']> (sets (impl w))) (impl w);
                   log := log w ++ [ev (Some s')] |}
          end
        end
      else Return s w
    end.
Proof.
  unfold get_or_create_set. rewrite bind_unfold. simpl.
  destruct (sets (impl w) !! set) as [s|] eqn:Hs; [|done].
  rewrite bind_unfold.
  destruct (decide (s = VK_NULL_HANDLE)).
  - rewrite bind_unfold. simpl.
    destruct (set_layouts (layout (impl w)) !! set) as [sl|]; [|done].
    repeat (rewrite bind_unfold; simpl).
    unfold vkAllocateDescriptorSets.
    destruct (drv_allocate_set _ _) as [s'|]; simpl; [|done].
    rewrite bind_unfold. simpl.
    by rewrite list_lookup_insert_eq by by eapply lookup_lt_Some.
  - simpl. rewrite bind_unfold. simpl. by rewrite Hs.
Qed.

Lemma get_or_create_set_allocated set s w :
  sets (impl w) !! set = Some s -> s <> VK_NULL_HANDLE ->
  get_or_create_set set w = Return s w.
Proof.
  intros Hs Hnz. rewrite get_or_create_set_unfold, Hs.
  by destruct (decide (s = VK_NULL_HANDLE)).
Qed.

Lemma get_or_create_set_returns set s w w' :
  get_or_create_set set w = Return s w' ->
  sets (impl w') !! set = Some s /\ s <> VK_NULL_HANDLE.
Proof.
  rewrite get_or_create_set_unfold.
  destruct (sets (impl w) !! set) as [s0|] eqn:Hs; [|done].
  destruct (decide (s0 = VK_NULL_HANDLE)) as [Hz|Hnz].
  - destruct (set_layouts _ !! set) as [sl|]; [|done]. simpl.
    destruct (drv_allocate_set _ _) as [s'|] eqn:Ha; [|done].
    intros [= <- <-]. simpl. split.
    + apply list_lookup_insert_eq. by eapply lookup_lt_Some.
    + by eapply drv_allocate_set_nonnull.
  - by intros [= <- <-].
Qed.

(** *** Every entry point only ever appends to the log *)

Lemma respects_emit_extends e : respects log_extends (emit e).
Proof.
  intros w0 w [t Ht]. exists (t ++ [e]). simpl. by rewrite Ht, app_assoc.
Qed.

Lemma respects_modify_extends f : respects log_extends (modify f).
Proof. by intros w0 w [t Ht]; exists t. Qed.

Lemma respects_create_view_extends d info :
  respects log_extends (vkCreateImageView d info).
Proof.
  intros w0 w [t Ht]. eexists (t ++ [_]). simpl. by rewrite Ht, app_assoc.
Qed.

Lemma respects_allocate_extends d info slot :
  respects log_extends (vkAllocateDescriptorSets d info slot).
Proof.
  intros w0 w [t Ht]. unfold vkAllocateDescriptorSets.
  exists (t ++ [AllocateDescriptorSets d info slot
                  (drv_allocate_set (log w) info)]).
  destruct (drv_allocate_set _ _); simpl; by rewrite Ht, app_assoc.
Qed.


Hint Resolve respects_emit_extends respects_modify_extends
  respects_create_view_extends respects_allocate_extends : helper.

Lemma respects_get_or_create_set_extends set :
  respects log_extends (get_or_create_set set).
Proof. unfold get_or_create_set. respects_steps. Qed.

Hint Resolve respects_get_or_create_set_extends : helper.

Lemma respects_run_call_extends c : respects log_extends (run_call c).
Proof.
  destruct c; simpl;
    unfold set_storage_image, set_combined_image_sampler, set_uniform_buffer,
      commit, commit_frame, for_range, bind_loop_body, image_type_to_view_type,
      vkUpdateDescriptorSets, vkCmdBindDescriptorSets, push_cleanup;
    respects_steps.
Qed.

Lemma step_log_extends w w' : step w w' -> log_extends w w'.
Proof.
  destruct 1 as [c w w' Hr].
  pose proof (respects_run_call_extends c w w (log_extends_refl w)) as He.
  destruct (run_call c w); simpl in *; congruence.
Qed.

Lemma steps_log_extends w w' : steps w w' -> log_extends w w'.
Proof.
  induction 1 as [|w1 w2 w3 _ IH Hs]; [apply log_extends_refl|].
  eapply log_extends_trans; [exact IH|by apply step_log_extends].
Qed.

Lemma steps_trans w1 w2 w3 : steps w1 w2 -> steps w2 w3 -> steps w1 w3.
Proof.
  intros H12 H23. revert H12.
  induction H23 as [|a b c _ IH Hs]; intros H12; [done|].
  eapply steps_more; [apply IH, H12|exact Hs].
Qed.

(** *** The invariant holds from construction on *)

Section invariant.
Variables (d : N) (l : PipelineLayout) (r : ReflectedLayout)
  (bp : VkPipelineBindPoint).


Lemma helper_inv_ctor : helper_inv d l r bp (Impl_ctor d l r bp).
Proof.
  constructor; simpl; try done.
  - apply length_replicate.
  - intros i. destruct (replicate _ _ !! i) as [s|] eqn:Hi; [|done].
    apply lookup_replicate in Hi as [-> _]. by rewrite decide_True.
  - by intros i s [-> _]%lookup_replicate.
  - by repeat constructor.
Qed.

Lemma helper_inv_frame w i' t :
  helper_inv d l r bp w ->
  device i' = device (impl w) -> layout i' = layout (impl w) ->
  reflected i' = reflected (impl w) -> bind_point i' = bind_point (impl w) ->
  nsets i' = nsets (impl w) -> sets i' = sets (impl w) ->
  Forall (fun e => is_teardown e = false) t ->
  (forall i, allocations i t = []) ->
  helper_inv d l r bp {| impl := i'; log := log w ++ t |}.
Proof.
  intros [] Hd Hl Hr Hb Hn Hs Ht Ha. constructor; simpl; try congruence.
  - intros i. rewrite allocations_app, Ha, app_nil_r, Hs. auto.
  - rewrite Hs. auto.
  - apply Forall_app. auto.
Qed.

Lemma respects_emit_inv e :
  is_teardown e = false -> (forall i, allocations i [e] = []) ->
  respects (live d l r bp) (emit e).
Proof.
  intros He Ha w0 w Hw. unfold emit. simpl.
  apply helper_inv_frame; auto.
Qed.

Lemma respects_create_view_inv dev info :
  respects (live d l r bp) (vkCreateImageView dev info).
Proof.
  intros w0 w Hw. unfold vkCreateImageView. simpl.
  apply helper_inv_frame; auto.
Qed.

Lemma respects_push_cleanup_inv dev view :
  respects (live d l r bp) (push_cleanup dev view).
Proof.
  intros w0 w Hw. unfold push_cleanup, modify. simpl.
  rewrite <- (app_nil_r (log w)). apply helper_inv_frame; auto.
Qed.

Lemma respects_with_committed_inv b :
  respects (live d l r bp) (modify (with_committed b)).
Proof.
  intros w0 w Hw. unfold modify. simpl.
  rewrite <- (app_nil_r (log w)). apply helper_inv_frame; auto.
Qed.

Lemma respects_update_inv dev write :
  respects (live d l r bp) (vkUpdateDescriptorSets dev write).
Proof. by apply respects_emit_inv. Qed.

Lemma respects_cmd_bind_inv cmdbuf b pl first s :
  respects (live d l r bp) (vkCmdBindDescriptorSets cmdbuf b pl first s).
Proof. by apply respects_emit_inv. Qed.

Lemma allocations_single dev info slot h i :
  allocations i [AllocateDescriptorSets dev info slot (Some h)] =
    if decide (slot = i) then [h] else [].
Proof. simpl. by destruct (decide (slot = i)). Qed.

Lemma respects_get_or_create_set_inv set :
  respects (live d l r bp) (get_or_create_set set).
Proof.
  intros w0 w Hw. rewrite get_or_create_set_unfold.
  destruct (sets (impl w) !! set) as [s|] eqn:Hs; [|done].
  destruct (decide (s = VK_NULL_HANDLE)) as [->|Hnz]; [|done].
  destruct (set_layouts _ !! set) as [sl|] eqn:Hsl; [|done]. simpl.
  destruct (drv_allocate_set _ _) as [s'|] eqn:Ha; simpl.
  - pose proof (drv_allocate_set_nonnull _ _ _ Ha) as Hs'.
    pose proof (lookup_lt_Some _ _ _ Hs) as Hlt.
    destruct Hw. constructor; simpl; try done.
    + by rewrite length_insert.
    + intros i. rewrite allocations_app, allocations_single, inv_alloc0.
      destruct (decide (set = i)) as [<-|Hne].
      * rewrite Hs, list_lookup_insert_eq by done.
        rewrite decide_True by done. by rewrite decide_False.
      * rewrite list_lookup_insert_ne by done. by rewrite app_nil_r.
    + intros i s0. destruct (decide (set = i)) as [<-|Hne].
      * intros _ _. rewrite inv_layout0 in Hsl. by eapply lookup_lt_Some.
      * rewrite list_lookup_insert_ne by done. apply inv_layouts0.
    + apply Forall_app. by repeat constructor.
  - apply helper_inv_frame; auto.
Qed.

Hint Resolve respects_create_view_inv respects_push_cleanup_inv
  respects_with_committed_inv respects_update_inv respects_cmd_bind_inv
  respects_get_or_create_set_inv : helper.

Lemma respects_run_call_inv c : respects (live d l r bp) (run_call c).
Proof.
  destruct c; simpl;
    unfold set_storage_image, set_combined_image_sampler, set_uniform_buffer,
      commit, commit_frame, for_range, bind_loop_body, image_type_to_view_type;
    respects_steps.
Qed.

Lemma step_helper_inv w w' :
  step w w' -> helper_inv d l r bp w -> helper_inv d l r bp w'.
Proof.
  destruct 1 as [c w w' Hr]. intros Hw.
  pose proof (respects_run_call_inv c w w Hw) as Hw'. unfold live in Hw'.
  destruct (run_call c w); simpl in *; congruence.
Qed.

Lemma steps_helper_inv w w' :
  steps w w' -> helper_inv d l r bp w -> helper_inv d l r bp w'.
Proof.
  induction 1 as [|w1 w2 w3 _ IH Hs]; [done|].
  intros Hw. eapply step_helper_inv; eauto.
Qed.

Lemma reachable_helper_inv w : reachable d l r bp w -> helper_inv d l r bp w.
Proof. intros Hr. eapply steps_helper_inv; [exact Hr|apply helper_inv_ctor]. Qed.

End invariant.

End helper_facts.

(** ** Publishing: [commit] and [commit_frame] *)

Section publishing.
Context {drv : Driver}.

Lemma bind_loop_body_unfold cmdbuf set w :
  set < length (sets (impl w)) ->
  bind_loop_body cmdbuf set w =
    Return tt {| impl := impl w;
                 log := log w ++ omap (table_bind (impl w) cmdbuf) [set] |}.
Proof.
  intros Hlt. apply lookup_lt_is_Some_2 in Hlt as [s Hs].
  unfold bind_loop_body. rewrite bind_unfold. simpl.
  unfold table_bind. rewrite Hs.
  destruct (decide (s = VK_NULL_HANDLE)); simpl.
  - destruct w; simpl. by rewrite app_nil_r.
  - by repeat (rewrite bind_unfold; simpl).
Qed.

Lemma for_each_bind_loop cmdbuf xs w :
  (forall x, x ∈ xs -> x < length (sets (impl w))) ->
  for_each xs (bind_loop_body cmdbuf) w =
    Return tt {| impl := impl w;
                 log := log w ++ omap (table_bind (impl w) cmdbuf) xs |}.
Proof.
  revert w. induction xs as [|x xs IH]; intros w Hxs.
  - destruct w; simpl. by rewrite app_nil_r.
  - cbn [for_each]. rewrite bind_unfold.
    rewrite bind_loop_body_unfold by (apply Hxs; left).
    rewrite IH by (intros y Hy; apply Hxs; by right).
    simpl. rewrite <- app_assoc.
    by destruct (table_bind (impl w) cmdbuf x).
Qed.

Lemma bind_loop_in_range (i : Impl) :
  length (sets i) = nsets i ->
  forall x, x ∈ seq 0 (nsets i) -> x < length (sets i).
Proof. intros Hlen x Hx. apply elem_of_seq in Hx. lia. Qed.

Lemma commit_frame_unfold cmdbuf w :
  length (sets (impl w)) = nsets (impl w) ->
  commit_frame cmdbuf w =
    Return tt {| impl := impl w; log := log w ++ published (impl w) cmdbuf |}.
Proof.
  intros Hlen. unfold commit_frame, for_range. rewrite bind_unfold. simpl.
  by rewrite for_each_bind_loop by by apply bind_loop_in_range.
Qed.

Lemma commit_unfold cmdbuf w :
  length (sets (impl w)) = nsets (impl w) ->
  commit cmdbuf w =
    if committed (impl w) then Abort w
    else Return tt {| impl := with_committed true (impl w);
                      log := log w ++ published (impl w) cmdbuf |}.
Proof.
  intros Hlen. unfold commit, for_range. rewrite bind_unfold.
  unfold assert. destruct (committed (impl w)); simpl; [done|].
  repeat (rewrite bind_unfold; simpl).
  by rewrite for_each_bind_loop by by apply bind_loop_in_range.
Qed.

Lemma elem_of_published i cmdbuf e :
  e ∈ published i cmdbuf <->
  exists set s, set < nsets i /\ sets i !! set = Some s /\ s <> VK_NULL_HANDLE
    /\ e = CmdBindDescriptorSets cmdbuf (bind_point i)
             (pipeline_layout (layout i)) set s.
Proof.
  unfold published. rewrite list_elem_of_omap. split.
  - intros (set & Hset & Hb). apply elem_of_seq in Hset.
    unfold table_bind in Hb.
    destruct (sets i !! set) as [s|] eqn:Hs; [|done].
    destruct (decide (s = VK_NULL_HANDLE)); [done|].
    injection Hb as <-. exists set, s. repeat split; auto with lia.
  - intros (set & s & Hlt & Hs & Hnz & ->). exists set. split.
    + apply elem_of_seq. lia.
    + unfold table_bind. rewrite Hs. by rewrite decide_False.
Qed.

Lemma NoDup_published i cmdbuf : NoDup (published i cmdbuf).
Proof.
  unfold published. generalize (NoDup_seq 0 (nsets i)).
  induction 1 as [|x xs Hx _ IH]; simpl; [constructor|].
  destruct (table_bind i cmdbuf x) as [e|] eqn:He; [|done].
  constructor; [|done].
  intros (y & Hy & Hey)%list_elem_of_omap. apply Hx.
  unfold table_bind in He, Hey.
  destruct (sets i !! x) as [sx|]; [|done].
  destruct (sets i !! y) as [sy|]; [|done].
  repeat case_decide; try done. congruence.
Qed.

Lemma commit_frames_unfold cmdbufs w :
  length (sets (impl w)) = nsets (impl w) ->
  commit_frames cmdbufs w =
    Return tt {| impl := impl w;
                 log := log w ++ concat (map (published (impl w)) cmdbufs) |}.
Proof.
  intros Hlen. unfold commit_frames. revert w Hlen.
  induction cmdbufs as [|c cs IH]; intros w Hlen.
  - destruct w; simpl. by rewrite app_nil_r.
  - cbn [for_each]. rewrite bind_unfold, commit_frame_unfold by done.
    rewrite IH by done. simpl. by rewrite <- app_assoc.
Qed.

Lemma omap_seq_none {A} (f : nat -> option A) k m :
  (forall i, k <= i -> f i = None) -> omap f (seq k m) = [].
Proof.
  revert k. induction m as [|m IH]; intros k Hf; [done|].
  simpl. rewrite (Hf k) by lia. apply IH. intros i Hi. apply Hf. lia.
Qed.

Lemma omap_seq_beyond {A} (f : nat -> option A) k n :
  (forall i, k <= i -> f i = None) -> k <= n ->
  omap f (seq 0 n) = omap f (seq 0 k).
Proof.
  intros Hf Hkn. replace n with (k + (n - k)) by lia.
  rewrite seq_app, omap_app. simpl.
  rewrite (omap_seq_none f k) by done. apply app_nil_r.
Qed.

(** The loop may as well run up to the number of set layouts of the
    pipeline layout: beyond either count no slot holds a table. *)
Lemma published_up_to_declared_sets d l r bp w cmdbuf :
  helper_inv d l r bp w ->
  omap (table_bind (impl w) cmdbuf) (seq 0 (length (set_layouts l))) =
  published (impl w) cmdbuf.
Proof.
  intros [_ _ _ _ Hn Hlen _ Hlay _]. unfold published.
  set (k := Nat.min (nsets (impl w)) (length (set_layouts l))).
  assert (forall i, k <= i -> table_bind (impl w) cmdbuf i = None) as Hnone.
  { intros i Hi. unfold table_bind.
    destruct (sets (impl w) !! i) as [s|] eqn:Hs; [|done].
    case_decide; [done|].
    apply lookup_lt_Some in Hs as Hlt. apply Hlay in Hs; [|done].
    unfold k in Hi. lia. }
  rewrite (omap_seq_beyond _ k (length _)) by (auto; unfold k; lia).
  rewrite (omap_seq_beyond _ k (nsets _)) by (auto; unfold k; lia).
  done.
Qed.

Lemma published_iff_allocated d l r bp w cmdbuf set s :
  helper_inv d l r bp w ->
  CmdBindDescriptorSets cmdbuf bp (pipeline_layout l) set s
    ∈ published (impl w) cmdbuf
  <-> allocations set (log w) = [s].
Proof.
  intros [Hd Hl Hrf Hbp Hn Hlen Halloc _].
  rewrite elem_of_published, Halloc, Hbp, Hl. split.
  - intros (set' & s' & _ & Hs & Hnz & [= <- <-]).
    by rewrite Hs, decide_False.
  - destruct (sets (impl w) !! set) as [s0|] eqn:Hs; [|done].
    case_decide; [done|]. intros [= ->].
    exists set, s. repeat split; try done.
    apply lookup_lt_Some in Hs. lia.
Qed.

(** C2. [commit] on a live helper whose [committed] flag is false runs
    through the set indices 0, 1, ... up to the helper's set count (the
    number of sets of the reflected layout) and records on the given
    command buffer one bind for each index whose table has been
    allocated and none for the others; it then returns with the flag
    set.  Running the indices up to the number of sets the pipeline
    layout declares instead gives the same binds.  The binds are
    pairwise distinct, and the table bound at an index is the one the
    log shows as allocated for it.  A second [commit] on the resulting
    helper aborts on its assertion and leaves the world as it is. *)
Theorem commit_publishes_allocated_tables_once d l r bp w cmdbuf :
  reachable d l r bp w ->
  committed (impl w) = false ->
  let w' := {| impl := with_committed true (impl w);
               log := log w ++ published (impl w) cmdbuf |} in
  commit cmdbuf w = Return tt w'
  /\ nsets (impl w) = length (set_bindings r)
  /\ omap (table_bind (impl w) cmdbuf) (seq 0 (length (set_layouts l))) =
       published (impl w) cmdbuf
  /\ NoDup (published (impl w) cmdbuf)
  /\ (forall e, e ∈ published (impl w) cmdbuf ->
        exists set s, set < length (set_bindings r)
          /\ e = CmdBindDescriptorSets cmdbuf bp (pipeline_layout l) set s)
  /\ (forall set s,
        CmdBindDescriptorSets cmdbuf bp (pipeline_layout l) set s
          ∈ published (impl w) cmdbuf
        <-> allocations set (log w) = [s])
  /\ committed (impl w') = true
  /\ (forall cmdbuf', commit cmdbuf' w' = Abort w').
Proof.
  intros Hr Hc w'. pose proof (reachable_helper_inv _ _ _ _ _ Hr) as Hinv.
  pose proof Hinv as [Hd Hl Hrf Hbp Hn Hlen Halloc _].
  assert (length (sets (impl w)) = nsets (impl w)) as Hlen' by congruence.
  split; [by rewrite commit_unfold, Hc|].
  split; [done|]. split; [by eapply published_up_to_declared_sets|].
  split; [apply NoDup_published|].
  split; [|split; [|split]].
  - intros e (set & s & Hlt & _ & _ & ->)%elem_of_published.
    exists set, s. rewrite <- Hn, Hbp, Hl. by split.
  - intros set s. by eapply published_iff_allocated.
  - done.
  - intros c'. by rewrite commit_unfold.
Qed.

(** C3. [commit_frame] runs the same loop as [commit]: on a live
    helper it records, for each set index in turn, a bind of that
    index's table exactly when one has been allocated, and the log it
    leaves is the one [commit] leaves.  It returns whatever the
    [committed] flag holds and leaves the helper's fields, the flag
    among them, as they were; so any number of calls in a row (none,
    one, many; before or after a [commit]) succeed, and each of them
    records the binds of the same tables on the command buffer it is
    given. *)
Theorem commit_frame_repeats_the_commit_loop d l r bp w :
  reachable d l r bp w ->
  (forall cmdbuf,
     commit_frame cmdbuf w =
       Return tt {| impl := impl w;
                    log := log w ++ published (impl w) cmdbuf |})
  /\ (forall cmdbuf set s,
        CmdBindDescriptorSets cmdbuf bp (pipeline_layout l) set s
          ∈ published (impl w) cmdbuf
        <-> allocations set (log w) = [s])
  /\ (forall b cmdbuf,
        commit_frame cmdbuf {| impl := with_committed b (impl w); log := log w |} =
          Return tt {| impl := with_committed b (impl w);
                       log := log w ++ published (impl w) cmdbuf |})
  /\ (forall cmdbufs,
        commit_frames cmdbufs w =
          Return tt {| impl := impl w;
                       log := log w
                              ++ concat (map (published (impl w)) cmdbufs) |})
  /\ (forall cmdbuf,
        committed (impl w) = false ->
        log (final_world (commit cmdbuf w)) =
        log (final_world (commit_frame cmdbuf w))).
Proof.
  intros Hr. pose proof (reachable_helper_inv _ _ _ _ _ Hr) as Hinv.
  pose proof Hinv as [_ _ _ _ Hn Hlen _ _].
  assert (length (sets (impl w)) = nsets (impl w)) as Hlen' by congruence.
  split; [|split; [|split; [|split]]].
  - intros c. by apply commit_frame_unfold.
  - intros c set s. by eapply published_iff_allocated.
  - intros b c. by rewrite commit_frame_unfold.
  - intros cs. by apply commit_frames_unfold.
  - intros c Hc. by rewrite commit_unfold, commit_frame_unfold, Hc.
Qed.

End publishing.

Lemma reachable_two_set_helper_attached :
  reachable (drv := numbering_driver) 1 two_set_layout two_set_reflection
    VK_PIPELINE_BIND_POINT_COMPUTE two_set_helper_attached.
Proof.
  eapply steps_more; [apply steps_here|].
  apply (step_call (drv := numbering_driver)
           (Call_set_storage_image 0 0 image_2d None None)).
  reflexivity.
Defined.

Lemma commit_publishes_allocated_tables_once_witness :
  commit 50 two_set_helper_attached =
    Return tt
      {| impl := with_committed true (impl two_set_helper_attached);
         log := log two_set_helper_attached
                ++ [CmdBindDescriptorSets 50 VK_PIPELINE_BIND_POINT_COMPUTE
                      100 0 3] |}.
Proof.
  destruct (commit_publishes_allocated_tables_once (drv := numbering_driver)
              1 two_set_layout two_set_reflection
              VK_PIPELINE_BIND_POINT_COMPUTE two_set_helper_attached 50)
    as [Hcommit _].
  - apply reachable_two_set_helper_attached.
  - reflexivity.
  - exact Hcommit.
Defined.

Lemma commit_frame_repeats_the_commit_loop_witness :
  commit_frames [50; 51; 50]%N two_set_helper_attached =
    Return tt
      {| impl := impl two_set_helper_attached;
         log := log two_set_helper_attached
                ++ [CmdBindDescriptorSets 50 VK_PIPELINE_BIND_POINT_COMPUTE 100 0 3;
                    CmdBindDescriptorSets 51 VK_PIPELINE_BIND_POINT_COMPUTE 100 0 3;
                    CmdBindDescriptorSets 50 VK_PIPELINE_BIND_POINT_COMPUTE 100 0 3] |}.
Proof.
  destruct (commit_frame_repeats_the_commit_loop (drv := numbering_driver)
              1 two_set_layout two_set_reflection
              VK_PIPELINE_BIND_POINT_COMPUTE two_set_helper_attached)
    as (_ & _ & _ & Hframes & _).
  - apply reachable_two_set_helper_attached.
  - exact (Hframes [50; 51; 50]%N).
Defined.

(** ** The attachment entry points, step by step *)

Section attachments.
Context {drv : Driver}.

Lemma image_type_to_view_type_unfold type w :
  image_type_to_view_type type w =
    match default_view_shape type with
    | Some vt => Return vt w
    | None => Throw UnknownImageType w
    end.
Proof.
  unfold image_type_to_view_type, default_view_shape.
  by repeat case_decide.
Qed.

Lemma set_storage_image_unfold set binding image subresource vt w :
  set_storage_image set binding image subresource vt w =
    if committed (impl w) then Abort w
    else
      match resolved_view_type image vt with
      | None => Throw UnknownImageType w
      | Some fvt =>
        let info := storage_view_info image subresource fvt in
        let view := drv_create_view (log w) info in
        after_view set (device (impl w)) view
          (fun dst => storage_image_write dst binding view)
          {| impl := impl w;
             log := log w ++ [CreateImageView (device (impl w)) info view] |}
      end.
Proof.
  unfold set_storage_image, after_view. rewrite bind_unfold. unfold assert.
  destruct (committed (impl w)); simpl; [done|].
  rewrite bind_unfold. simpl. rewrite bind_unfold.
  destruct vt as [t|]; simpl.
  - rewrite bind_unfold. simpl. rewrite bind_unfold.
    by destruct (get_or_create_set _ _).
  - rewrite image_type_to_view_type_unfold.
    destruct (default_view_shape _); [|done].
    rewrite bind_unfold. simpl. rewrite bind_unfold.
    by destruct (get_or_create_set _ _).
Qed.

Lemma set_combined_image_sampler_unfold set binding image sampler_ w :
  set_combined_image_sampler set binding image sampler_ w =
    if committed (impl w) then Abort w
    else
      let info := combined_view_info image in
      let view := drv_create_view (log w) info in
      after_view set (device (impl w)) view
        (fun dst => combined_image_sampler_write dst binding view sampler_)
        {| impl := impl w;
           log := log w ++ [CreateImageView (device (impl w)) info view] |}.
Proof.
  unfold set_combined_image_sampler, after_view. rewrite bind_unfold.
  unfold assert. destruct (committed (impl w)); simpl; [done|].
  rewrite bind_unfold. simpl. rewrite bind_unfold. simpl.
  rewrite bind_unfold.
  by destruct (get_or_create_set _ _).
Qed.

Lemma set_uniform_buffer_unfold device_ set binding buffer_ offset_ range_ w :
  set_uniform_buffer device_ set binding buffer_ offset_ range_ w =
    match get_or_create_set set w with
    | Return dst w1 =>
        Return tt
          {| impl := impl w1;
             log := log w1
                    ++ [UpdateDescriptorSets device_
                          (uniform_buffer_write dst binding buffer_
                             offset_ range_)] |}
    | Throw e w1 => Throw e w1
    | Abort w1 => Abort w1
    | Undefined u w1 => Undefined u w1
    end.
Proof.
  unfold set_uniform_buffer. rewrite bind_unfold.
  by destruct (get_or_create_set _ _).
Qed.

Lemma get_or_create_set_in_range set w w' :
  set < length (sets (impl w)) ->
  get_or_create_set set w <> Undefined SetsOutOfRange w'.
Proof.
  intros [s Hs]%lookup_lt_is_Some_2. rewrite get_or_create_set_unfold, Hs.
  case_decide; [|done].
  destruct (set_layouts _ !! set); [|done]. simpl.
  by destruct (drv_allocate_set _ _).
Qed.

Lemma get_or_create_set_out_of_range set w :
  ~ set < length (sets (impl w)) ->
  get_or_create_set set w = Undefined SetsOutOfRange w.
Proof.
  intros Hge. rewrite get_or_create_set_unfold.
  by rewrite (lookup_ge_None_2 (sets (impl w)) set) by lia.
Qed.

Lemma get_or_create_set_throws set w e w' :
  get_or_create_set set w = Throw e w' -> e = VkCheckFailed.
Proof.
  rewrite get_or_create_set_unfold.
  destruct (sets (impl w) !! set) as [s|]; [|done].
  case_decide; [|done].
  destruct (set_layouts _ !! set); [|done]. simpl.
  destruct (drv_allocate_set _ _); [done|]. by intros [= <- _].
Qed.

Lemma after_view_log_extends set dev view write w1 :
  log_extends w1 (final_world (after_view set dev view write w1)).
Proof.
  pose proof (respects_get_or_create_set_extends set w1 w1
                (log_extends_refl w1)) as [t Ht].
  unfold after_view. destruct (get_or_create_set set w1); simpl in *;
    try by exists t.
  exists (t ++ [UpdateDescriptorSets dev (write a)]).
  by rewrite Ht, app_assoc.
Qed.

Lemma after_view_in_range set dev view write w1 w' :
  set < length (sets (impl w1)) ->
  after_view set dev view write w1 <> Undefined SetsOutOfRange w'.
Proof.
  intros Hlt. pose proof (get_or_create_set_in_range set w1) as Hin.
  unfold after_view. destruct (get_or_create_set set w1); try done.
  intros [= -> ->]. by eapply Hin.
Qed.

Lemma after_view_out_of_range set dev view write w1 :
  ~ set < length (sets (impl w1)) ->
  after_view set dev view write w1 = Undefined SetsOutOfRange w1.
Proof.
  intros Hge. unfold after_view.
  by rewrite get_or_create_set_out_of_range.
Qed.

Lemma step_get_or_create_set set w s w1 :
  get_or_create_set set w = Return s w1 -> step w w1.
Proof.
  intros Hg. apply (step_call (Call_get_or_create_set set)). simpl.
  by rewrite bind_unfold, Hg.
Qed.

(** C5. [get_or_create_set] is idempotent per set index.  Once a call
    for an index has returned a table, a second call for that index
    returns the same handle and changes nothing, neither the helper nor
    the device log; the same holds after any further calls on the
    helper, and the log keeps showing that one allocation for the
    index.  In every state of a live helper the log shows at most one
    allocation per index. *)
Theorem get_or_create_set_idempotent d l r bp w set s w1 :
  reachable d l r bp w ->
  get_or_create_set set w = Return s w1 ->
  get_or_create_set set w1 = Return s w1
  /\ (forall w2, steps w1 w2 ->
        get_or_create_set set w2 = Return s w2
        /\ allocations set (log w2) = [s])
  /\ (forall w2 i, steps w1 w2 -> length (allocations i (log w2)) <= 1)
  /\ (forall i, length (allocations i (log w)) <= 1).
Proof.
  intros Hr Hg.
  assert (reachable d l r bp w1) as Hr1.
  { eapply steps_more; [exact Hr|by eapply step_get_or_create_set]. }
  destruct (get_or_create_set_returns _ _ _ _ Hg) as [Hs Hnz].
  assert (forall w', reachable d l r bp w' -> forall i,
            length (allocations i (log w')) <= 1) as Hmost.
  { intros w' Hw' i. apply reachable_helper_inv in Hw' as [].
    rewrite inv_alloc0. destruct (sets (impl w') !! i); [|simpl; lia].
    case_decide; simpl; lia. }
  split; [by apply get_or_create_set_allocated|].
  split; [|split].
  - intros w2 H12.
    assert (reachable d l r bp w2) as Hr2 by (eapply steps_trans; eauto).
    apply reachable_helper_inv in Hr1 as Hi1.
    apply reachable_helper_inv in Hr2 as Hi2.
    destruct (steps_log_extends _ _ H12) as [t Ht].
    pose proof (inv_alloc _ _ _ _ _ Hi1 set) as Ha1.
    pose proof (inv_alloc _ _ _ _ _ Hi2 set) as Ha2.
    rewrite Hs, decide_False in Ha1 by done.
    rewrite Ht, allocations_app, Ha1 in Ha2.
    destruct (sets (impl w2) !! set) as [s2|] eqn:Hs2; [|done].
    case_decide; [done|]. injection Ha2 as -> Ht0.
    split; [by apply get_or_create_set_allocated|].
    by rewrite Ht, allocations_app, Ha1, Ht0.
  - intros w2 i H12. apply Hmost. eapply steps_trans; eauto.
  - by apply Hmost.
Qed.

(** C7. The destructor frees the table array, releases the pool, and
    only then runs the registered release actions: every one of them,
    once, in the order of registration.  These are all the device calls
    it makes. *)
Theorem destructor_releases_pool_then_views w :
  Impl_dtor w =
    log w
    ++ [FreeSets; DestroyDescriptorPool (device (impl w)) (pool (impl w))]
    ++ map call_closure (cleanup (impl w))
  /\ released_views (Impl_dtor w) =
       released_views (log w) ++ map cap_view (cleanup (impl w)).
Proof.
  assert (forall fns t,
            foldl (fun t fn => t ++ [call_closure fn]) t fns =
            t ++ map call_closure fns) as Hfold.
  { induction fns as [|fn fns IH]; intros t; simpl.
    - by rewrite app_nil_r.
    - by rewrite IH, <- app_assoc. }
  assert (Impl_dtor w =
            log w
            ++ [FreeSets; DestroyDescriptorPool (device (impl w)) (pool (impl w))]
            ++ map call_closure (cleanup (impl w))) as Hd.
  { unfold Impl_dtor. by rewrite Hfold, <- !app_assoc. }
  split; [exact Hd|].
  rewrite Hd, released_views_app. f_equal. simpl. clear Hd.
  induction (cleanup (impl w)) as [|fn fns IH]; [done|].
  change (cap_view fn :: released_views (map call_closure fns) =
          cap_view fn :: map cap_view fns).
  by rewrite IH.
Qed.

(** C8. [set_storage_image] called without a view type on a helper that
    is not committed derives the view type from the image: a 1D image
    gets a 1D view, a 2D image a 2D view, a 3D image a 3D view, and the
    view it creates has that type.  For any other image type the call
    throws "Unknown image type" with the world exactly as it found it:
    no view created, no table allocated, no slot written, no release
    registered. *)
Theorem set_storage_image_default_view_shape set binding image subresource w :
  committed (impl w) = false ->
  default_view_shape VK_IMAGE_TYPE_1D = Some VK_IMAGE_VIEW_TYPE_1D
  /\ default_view_shape VK_IMAGE_TYPE_2D = Some VK_IMAGE_VIEW_TYPE_2D
  /\ default_view_shape VK_IMAGE_TYPE_3D = Some VK_IMAGE_VIEW_TYPE_3D
  /\ (forall t, t <> VK_IMAGE_TYPE_1D -> t <> VK_IMAGE_TYPE_2D ->
                t <> VK_IMAGE_TYPE_3D -> default_view_shape t = None)
  /\ match default_view_shape (Image.type image) with
     | Some vt =>
         let info := storage_view_info image subresource vt in
         exists rest,
           log (final_world
                  (set_storage_image set binding image subresource None w)) =
             log w
             ++ CreateImageView (device (impl w)) info
                  (drv_create_view (log w) info) :: rest
     | None =>
         set_storage_image set binding image subresource None w =
           Throw UnknownImageType w
     end.
Proof.
  intros Hc. repeat split; try done.
  - intros t H1 H2 H3. unfold default_view_shape. by repeat case_decide.
  - rewrite set_storage_image_unfold, Hc. simpl.
    destruct (default_view_shape (Image.type image)) as [vt|]; [|done].
    edestruct after_view_log_extends as [t Ht]. rewrite Ht. simpl.
    exists t. by rewrite <- app_assoc.
Qed.

(** C9. [set_combined_image_sampler] on a helper that is not committed
    creates its view from a create-info that is fixed up to the image's
    handle, format and layer count: view type 2D-array, colour aspect,
    mip levels 0 to 0 (one level), array layers from 0 through all of
    the image's layers.  Neither the image's type nor its own range
    enters it, the entry point has no parameter that does, and the call
    never ends in the unknown-image-type exception. *)
Theorem set_combined_image_sampler_fixed_view set binding image sampler_ w :
  committed (impl w) = false ->
  combined_view_info image =
    {| image := Image.handle image;
       viewType := VK_IMAGE_VIEW_TYPE_2D_ARRAY;
       format := Image.format image;
       subresourceRange :=
         {| aspectMask := VK_IMAGE_ASPECT_COLOR_BIT;
            baseMipLevel := 0; levelCount := 1;
            baseArrayLayer := 0;
            layerCount := Image.layerCount image |} |}
  /\ (exists rest,
        log (final_world
               (set_combined_image_sampler set binding image sampler_ w)) =
          log w
          ++ CreateImageView (device (impl w)) (combined_view_info image)
               (drv_create_view (log w) (combined_view_info image)) :: rest)
  /\ (forall w',
        set_combined_image_sampler set binding image sampler_ w <>
          Throw UnknownImageType w').
Proof.
  intros Hc. split; [done|].
  rewrite set_combined_image_sampler_unfold, Hc. simpl. split.
  - edestruct after_view_log_extends as [t Ht]. rewrite Ht. simpl.
    exists t. by rewrite <- app_assoc.
  - intros w'. unfold after_view.
    destruct (get_or_create_set _ _) eqn:Hg; try done.
    apply get_or_create_set_throws in Hg as ->. done.
Qed.

(** C10. The table array of a live helper has as many slots as the
    reflected layout has sets.  A look-up of set index [set] finds a
    slot exactly when [set] is below that count; [get_or_create_set]
    does not test this, and runs off the array exactly when it is not.
    So a look-up or attachment call with an index below the count never
    ends in that out-of-range access, and one with an index at or above
    the count does as soon as it reaches its look-up. *)
Theorem set_index_below_reflected_set_count d l r bp w set :
  reachable d l r bp w ->
  length (sets (impl w)) = length (set_bindings r)
  /\ (is_Some (sets (impl w) !! set) <-> set < length (set_bindings r))
  /\ (get_or_create_set set w = Undefined SetsOutOfRange w
      <-> ~ set < length (set_bindings r))
  /\ (set < length (set_bindings r) ->
      forall c w', target_set c = Some set ->
        run_call c w <> Undefined SetsOutOfRange w')
  /\ (~ set < length (set_bindings r) ->
      forall c, target_set c = Some set -> reaches_lookup c w ->
        exists w', run_call c w = Undefined SetsOutOfRange w').
Proof.
  intros Hr. apply reachable_helper_inv in Hr as [_ _ _ _ _ Hlen _ _].
  split; [done|]. rewrite <- Hlen. split; [apply lookup_lt_is_Some|].
  split; [|split].
  - split.
    + intros Hg Hlt. by eapply get_or_create_set_in_range.
    + apply get_or_create_set_out_of_range.
  - intros Hlt c w' Hc. destruct c; simpl in Hc; try done;
      injection Hc as ->; simpl.
    + rewrite bind_unfold.
      pose proof (get_or_create_set_in_range set w) as Hin.
      destruct (get_or_create_set set w); try done.
      intros [= -> ->]. by eapply Hin.
    + rewrite set_storage_image_unfold.
      destruct (committed (impl w)); [done|].
      destruct (resolved_view_type _ _); [|done].
      by apply after_view_in_range.
    + rewrite set_combined_image_sampler_unfold.
      destruct (committed (impl w)); [done|].
      by apply after_view_in_range.
    + rewrite set_uniform_buffer_unfold.
      pose proof (get_or_create_set_in_range set w) as Hin.
      destruct (get_or_create_set set w); try done.
      intros [= -> ->]. by eapply Hin.
  - intros Hge c Hc Hreach. destruct c; simpl in Hc, Hreach; try done;
      injection Hc as ->; simpl.
    + exists w. by rewrite bind_unfold, get_or_create_set_out_of_range.
    + destruct Hreach as [Hcom Hvt].
      rewrite set_storage_image_unfold, Hcom.
      destruct (resolved_view_type _ image_view_type) as [vt|] eqn:Hres.
      * eexists. by apply after_view_out_of_range.
      * destruct image_view_type; [done|].
        simpl in Hres. destruct Hvt as [vt Hvt]; congruence.
    + rewrite set_combined_image_sampler_unfold, Hreach.
      eexists. by apply after_view_out_of_range.
    + exists w.
      by rewrite set_uniform_buffer_unfold, get_or_create_set_out_of_range.
Qed.

End attachments.

(** ** The histogram of the constructor *)

Section histogram.

Lemma add_binding_lookup (m : gmap Z N) b k :
  add_binding m b !! k =
    if decide (descriptorType b = k)
    then Some (uint32_add (default 0%N (m !! k)) (descriptorCount b))
    else m !! k.
Proof.
  unfold add_binding, access_map.
  destruct (decide (is_Some (m !! descriptorType b))) as [Hs|Hn].
  - rewrite lookup_insert. by case_decide; subst.
  - apply eq_None_not_Some in Hn.
    rewrite lookup_insert. case_decide as Hk.
    + subst k. by rewrite lookup_insert_eq, Hn.
    + by rewrite lookup_insert_ne.
Qed.

Lemma foldl_add_binding_lookup bs (m : gmap Z N) k :
  foldl add_binding m bs !! k =
    match filter (fun b => descriptorType b = k) bs with
    | [] => m !! k
    | kbs =>
        Some ((default 0 (m !! k)
               + foldr N.add 0 (map descriptorCount kbs)) mod 2 ^ 32)%N
    end.
Proof.
  revert m. induction bs as [|b bs IH]; intros m; [done|].
  cbn [foldl]. rewrite IH, add_binding_lookup.
  rewrite filter_cons. case_decide as Hk.
  - destruct (filter _ bs) as [|b' kbs]; simpl.
    + unfold uint32_add. by rewrite N.add_0_r.
    + unfold uint32_add. f_equal.
      rewrite N.Div0.add_mod_idemp_l. f_equal. lia.
  - done.
Qed.

Lemma foldl_sets_concat (m : gmap Z N)
    (sb : list (nat * list VkDescriptorSetLayoutBinding)) :
  foldl (fun m entry => foldl add_binding m (snd entry)) m sb =
  foldl add_binding m (concat (map snd sb)).
Proof.
  revert m. induction sb as [|e sb IH]; intros m; [done|].
  simpl. by rewrite foldl_app, IH.
Qed.

Lemma descriptor_counts_lookup r k :
  descriptor_counts r !! k =
    match bindings_of_kind k r with
    | [] => None
    | _ :: _ => Some (kind_total k r mod 2 ^ 32)%N
    end.
Proof.
  unfold descriptor_counts, kind_total, bindings_of_kind.
  rewrite foldl_sets_concat, foldl_add_binding_lookup, lookup_empty.
  by destruct (filter _ _).
Qed.

Lemma concat_snd_Permutation
    (l1 l2 : list (nat * list VkDescriptorSetLayoutBinding)) :
  Permutation l1 l2 ->
  Permutation (concat (map snd l1)) (concat (map snd l2)).
Proof.
  induction 1 as [|x l l' _ IH|x y l|l l' l'' _ IH1 _ IH2]; simpl.
  - done.
  - by apply Permutation_app_head.
  - rewrite !app_assoc. apply Permutation_app_tail, Permutation_app_comm.
  - by etrans.
Qed.

Lemma concat_snd_Forall2
    (l1 l2 : list (nat * list VkDescriptorSetLayoutBinding)) :
  Forall2 (fun e e' => fst e = fst e' /\ Permutation (snd e) (snd e')) l1 l2 ->
  Permutation (concat (map snd l1)) (concat (map snd l2)).
Proof.
  induction 1 as [|e e' l l' [_ He] _ IH]; simpl; [done|].
  by apply Permutation_app.
Qed.

Lemma sum_counts_Permutation (bs bs' : list VkDescriptorSetLayoutBinding) :
  Permutation bs bs' ->
  foldr N.add 0%N (map descriptorCount bs) =
  foldr N.add 0%N (map descriptorCount bs').
Proof.
  induction 1 as [|x l l' _ IH|x y l|l l' l'' _ IH1 _ IH2]; simpl.
  - done.
  - by rewrite IH.
  - lia.
  - congruence.
Qed.

Lemma reordered_bindings_of_kind r r' k :
  reordered r r' ->
  Permutation (bindings_of_kind k r) (bindings_of_kind k r').
Proof.
  intros (l & Hsets & Hperm). unfold bindings_of_kind.
  apply filter_Permutation. etrans.
  - by apply concat_snd_Forall2.
  - by apply concat_snd_Permutation.
Qed.

(** C4, as the code has it.  The histogram built by the constructor has
    an entry for a resource kind exactly when some binding descriptor of
    some set is of that kind, and the entry is the sum of [count] over
    all descriptors of that kind across all sets, reduced modulo 2^32:
    the counters are [uint32_t].  Whenever the sum is below 2^32 the
    entry is the sum itself.  The histogram is the same map for every
    order in which the sets, and the bindings within each set, are
    visited. *)
Theorem descriptor_counts_sums_counts_modulo_2_32 r k :
  descriptor_counts r !! k =
    match bindings_of_kind k r with
    | [] => None
    | _ :: _ => Some (kind_total k r mod 2 ^ 32)%N
    end
  /\ ((kind_total k r < 2 ^ 32)%N -> bindings_of_kind k r <> [] ->
      descriptor_counts r !! k = Some (kind_total k r))
  /\ (forall r', reordered r r' -> descriptor_counts r' = descriptor_counts r).
Proof.
  split; [apply descriptor_counts_lookup|]. split.
  - intros Hlt Hne. rewrite descriptor_counts_lookup.
    destruct (bindings_of_kind k r); [done|].
    by rewrite N.mod_small.
  - intros r' Hre. apply map_eq. intros k'.
    rewrite !descriptor_counts_lookup.
    pose proof (reordered_bindings_of_kind r r' k' Hre) as Hp.
    unfold kind_total. rewrite (sum_counts_Permutation _ _ Hp).
    destruct (bindings_of_kind k' r) as [|b bs].
    + by apply Permutation_nil in Hp as ->.
    + destruct (bindings_of_kind k' r') as [|b' bs']; [|done].
      symmetry in Hp. by apply Permutation_nil in Hp.
Qed.

End histogram.

Lemma reordered_two_set_reflection :
  reordered two_set_reflection two_set_reflection_swapped.
Proof.
  exists (set_bindings two_set_reflection). split.
  - repeat constructor.
  - apply perm_swap.
Defined.

Lemma descriptor_counts_sums_counts_modulo_2_32_witness :
  descriptor_counts two_set_reflection !! VK_DESCRIPTOR_TYPE_STORAGE_IMAGE
    = Some 1%N
  /\ descriptor_counts two_set_reflection_swapped
     = descriptor_counts two_set_reflection.
Proof.
  destruct (descriptor_counts_sums_counts_modulo_2_32 two_set_reflection
              VK_DESCRIPTOR_TYPE_STORAGE_IMAGE) as (_ & Hexact & Horder).
  split.
  - apply Hexact; [reflexivity|discriminate].
  - apply Horder, reordered_two_set_reflection.
Defined.

(** The claim C4 as the specification words it, with the sum taken in
    the natural numbers, fails where the counts of one kind add up to
    2^32 or more: two storage-image arrays of 2^31 descriptors each sum
    to 2^32, and the histogram holds 0 for the kind. *)
Lemma descriptor_counts_exact_sum_counterexample :
  kind_total VK_DESCRIPTOR_TYPE_STORAGE_IMAGE overflowing_reflection
    = (2 ^ 32)%N
  /\ descriptor_counts overflowing_reflection
       !! VK_DESCRIPTOR_TYPE_STORAGE_IMAGE = Some 0%N
  /\ descriptor_counts overflowing_reflection
       !! VK_DESCRIPTOR_TYPE_STORAGE_IMAGE
     <> Some (kind_total VK_DESCRIPTOR_TYPE_STORAGE_IMAGE
                overflowing_reflection).
Proof.
  split; [reflexivity|]. split; [by vm_compute|].
  by vm_compute.
Qed.

(** ** Views and their release actions *)

Section views.
Context {drv : Driver}.

Lemma get_or_create_set_keeps_views set w :
  cleanup (impl (final_world (get_or_create_set set w))) = cleanup (impl w)
  /\ created_views (log (final_world (get_or_create_set set w))) =
     created_views (log w).
Proof.
  rewrite get_or_create_set_unfold.
  destruct (sets (impl w) !! set) as [s|]; [|done].
  case_decide; [|done].
  destruct (set_layouts _ !! set); [|done]. simpl.
  destruct (drv_allocate_set _ _); simpl;
    by rewrite created_views_app, app_nil_r.
Qed.

Lemma get_or_create_set_never_aborts set w w' :
  get_or_create_set set w <> Abort w'.
Proof.
  rewrite get_or_create_set_unfold.
  destruct (sets (impl w) !! set) as [s|]; [|done].
  case_decide; [|done].
  destruct (set_layouts _ !! set); [|done]. simpl.
  by destruct (drv_allocate_set _ _).
Qed.

Lemma after_view_returns set dev view write w1 w' :
  after_view set dev view write w1 = Return tt w' ->
  cleanup (impl w') =
    cleanup (impl w1) ++ [{| cap_deviceHandle := dev; cap_view := view |}]
  /\ created_views (log w') = created_views (log w1).
Proof.
  unfold after_view.
  destruct (get_or_create_set_keeps_views set w1) as [Hc Hv].
  destruct (get_or_create_set set w1); try done.
  intros [= <-]. simpl in *.
  by rewrite Hc, created_views_app, Hv, app_nil_r.
Qed.

(** An image attachment that returns has created one view and
    registered the release of that view. *)
Lemma set_storage_image_returns set binding image subresource vt w w' :
  set_storage_image set binding image subresource vt w = Return tt w' ->
  exists view,
    created_views (log w') = created_views (log w) ++ [view]
    /\ cleanup (impl w') =
         cleanup (impl w)
         ++ [{| cap_deviceHandle := device (impl w); cap_view := view |}].
Proof.
  rewrite set_storage_image_unfold.
  destruct (committed (impl w)); [done|].
  destruct (resolved_view_type _ _); [|done].
  intros [Hc Hv]%after_view_returns. simpl in Hc, Hv.
  eexists. split; [|exact Hc].
  by rewrite Hv, created_views_app.
Qed.

Lemma set_combined_image_sampler_returns set binding image sampler_ w w' :
  set_combined_image_sampler set binding image sampler_ w = Return tt w' ->
  exists view,
    created_views (log w') = created_views (log w) ++ [view]
    /\ cleanup (impl w') =
         cleanup (impl w)
         ++ [{| cap_deviceHandle := device (impl w); cap_view := view |}].
Proof.
  rewrite set_combined_image_sampler_unfold.
  destruct (committed (impl w)); [done|].
  intros [Hc Hv]%after_view_returns. simpl in Hc, Hv.
  eexists. split; [|exact Hc].
  by rewrite Hv, created_views_app.
Qed.

(** A uniform-buffer attachment creates no view and registers nothing,
    however it ends. *)
Lemma set_uniform_buffer_keeps_views device_ set binding buffer_ o r w :
  let w' := final_world (set_uniform_buffer device_ set binding buffer_ o r w) in
  created_views (log w') = created_views (log w)
  /\ cleanup (impl w') = cleanup (impl w).
Proof.
  rewrite set_uniform_buffer_unfold.
  destruct (get_or_create_set_keeps_views set w) as [Hc Hv].
  destruct (get_or_create_set set w); simpl in *; try done.
  by rewrite created_views_app, app_nil_r.
Qed.

(** No view is released while the helper lives. *)
Lemma live_helper_released_nothing d l r bp w :
  reachable d l r bp w -> released_views (log w) = [].
Proof.
  intros Hr. apply reachable_helper_inv in Hr as [].
  by apply released_views_live.
Qed.

(** The two image entry points stop at their assertion once the helper
    is committed, and leave the world alone. *)
Lemma image_attachment_after_commit_aborts set binding image sub vt sampler_ w :
  committed (impl w) = true ->
  set_storage_image set binding image sub vt w = Abort w
  /\ set_combined_image_sampler set binding image sampler_ w = Abort w.
Proof.
  intros Hc.
  by rewrite set_storage_image_unfold, set_combined_image_sampler_unfold, Hc.
Qed.

(** [set_uniform_buffer] has no assertion to stop at. *)
Lemma set_uniform_buffer_never_aborts device_ set binding buffer_ o r w w' :
  set_uniform_buffer device_ set binding buffer_ o r w <> Abort w'.
Proof.
  rewrite set_uniform_buffer_unfold.
  pose proof (get_or_create_set_never_aborts set w) as Hn.
  destruct (get_or_create_set set w); try done.
  intros [= ->]. by eapply Hn.
Qed.

End views.

(** C1, on the code.  A fresh helper over the two-set layout is
    committed; [set_uniform_buffer] is then called for set 0, binding 0.
    The call is not rejected: it returns normally, having allocated the
    table of set 0 and written the slot.  ([set_storage_image] and
    [set_combined_image_sampler] do assert, see
    [image_attachment_after_commit_aborts].) *)
Theorem set_uniform_buffer_after_commit_goes_through :
  let w := two_set_helper_committed in
  committed (impl w) = true
  /\ sets (impl w) = [0; 0]%N
  /\ exists w',
       set_uniform_buffer (drv := numbering_driver) 1 0 0 a_buffer 0 64 w
         = Return tt w'
       /\ sets (impl w') = [2; 0]%N
       /\ log w' =
            log w
            ++ [AllocateDescriptorSets 1
                  {| descriptorPool := 1; descriptorSetCount := 1;
                     pSetLayouts := 101 |} 0 (Some 2%N);
                UpdateDescriptorSets 1
                  (uniform_buffer_write 2 0 a_buffer 0 64)].
Proof.
  split; [reflexivity|]. split; [reflexivity|].
  eexists. split; [reflexivity|]. split; reflexivity.
Qed.

(** C6, on the code.  On a device whose descriptor-set allocation
    fails, [set_storage_image] on a fresh helper creates its view, then
    throws out of [get_or_create_set] before the release of the view is
    registered.  The helper the caller is left with has created one view
    and holds no release action, and its destructor releases no view.
    (Attachment calls that return do register their view, see
    [set_storage_image_returns] and [set_combined_image_sampler_returns],
    and nothing is released early, see [live_helper_released_nothing].) *)
Theorem failed_allocation_leaves_view_unregistered :
  let w := two_set_helper exhausted_driver in
  exists w',
    set_storage_image (drv := exhausted_driver) 0 0 image_2d None None w
      = Throw VkCheckFailed w'
    /\ created_views (log w') = [2%N]
    /\ cleanup (impl w') = []
    /\ released_views (Impl_dtor w') = [].
Proof.
  exists (final_world
            (set_storage_image (drv := exhausted_driver) 0 0 image_2d
               None None (two_set_helper exhausted_driver))).
  repeat split; by vm_compute.
Qed.

(** ** The theorems at concrete inputs *)

Lemma get_or_create_set_idempotent_witness :
  get_or_create_set (drv := numbering_driver) 0 two_set_helper_looked_up
    = Return 2%N two_set_helper_looked_up.
Proof.
  destruct (get_or_create_set_idempotent (drv := numbering_driver)
              1 two_set_layout two_set_reflection
              VK_PIPELINE_BIND_POINT_COMPUTE
              (two_set_helper numbering_driver) 0 2%N
              two_set_helper_looked_up) as [Hagain _].
  - apply steps_here.
  - reflexivity.
  - exact Hagain.
Defined.

Lemma set_storage_image_default_view_shape_witness :
  set_storage_image (drv := numbering_driver) 0 0 image_odd None None
    (two_set_helper numbering_driver)
  = Throw UnknownImageType (two_set_helper numbering_driver)
  /\ exists rest,
       log (final_world
              (set_storage_image (drv := numbering_driver) 0 0 image_2d
                 None None (two_set_helper numbering_driver))) =
         log (two_set_helper numbering_driver)
         ++ CreateImageView 1
              (storage_view_info image_2d None VK_IMAGE_VIEW_TYPE_2D) 2 :: rest.
Proof.
  split.
  - destruct (set_storage_image_default_view_shape (drv := numbering_driver)
                0 0 image_odd None (two_set_helper numbering_driver))
      as (_ & _ & _ & _ & Hthrow).
    + reflexivity.
    + exact Hthrow.
  - destruct (set_storage_image_default_view_shape (drv := numbering_driver)
                0 0 image_2d None (two_set_helper numbering_driver))
      as (_ & _ & _ & _ & Hview).
    + reflexivity.
    + exact Hview.
Defined.

Lemma set_combined_image_sampler_fixed_view_witness :
  exists rest,
    log (final_world
           (set_combined_image_sampler (drv := numbering_driver) 0 0
              image_2d 77 (two_set_helper numbering_driver))) =
      log (two_set_helper numbering_driver)
      ++ CreateImageView 1 (combined_view_info image_2d) 2 :: rest.
Proof.
  destruct (set_combined_image_sampler_fixed_view (drv := numbering_driver)
              0 0 image_2d 77 (two_set_helper numbering_driver))
    as (_ & Hview & _).
  - reflexivity.
  - exact Hview.
Defined.

Lemma set_index_below_reflected_set_count_witness :
  get_or_create_set (drv := numbering_driver) 5
    (two_set_helper numbering_driver)
  = Undefined SetsOutOfRange (two_set_helper numbering_driver)
  /\ forall w',
       run_call (drv := numbering_driver)
         (Call_set_uniform_buffer 1 1 0 a_buffer 0 64)
         (two_set_helper numbering_driver)
       <> Undefined SetsOutOfRange w'.
Proof.
  split.
  - destruct (set_index_below_reflected_set_count (drv := numbering_driver)
                1 two_set_layout two_set_reflection
                VK_PIPELINE_BIND_POINT_COMPUTE
                (two_set_helper numbering_driver) 5)
      as (_ & _ & [_ Hoob] & _).
    + apply steps_here.
    + apply Hoob. simpl. lia.
  - destruct (set_index_below_reflected_set_count (drv := numbering_driver)
                1 two_set_layout two_set_reflection
                VK_PIPELINE_BIND_POINT_COMPUTE
                (two_set_helper numbering_driver) 1)
      as (_ & _ & _ & Hin & _).
    + apply steps_here.
    + intros w'. apply Hin; [simpl; lia|reflexivity].
Defined.

(** * Beyond the claims *)

(** ** Observations a computation leaves alone *)

Section preserved_facts.
Context {drv : Driver} {X Y : Type} (f : event -> option X) (g : Impl -> Y).

Lemma preserved_refl w : preserved f g w w.
Proof. by split. Qed.

Lemma respects_emit_preserved e :
  f e = None -> respects (preserved f g) (emit e).
Proof.
  intros He w0 w [Hl Hi]. split; simpl; [|done].
  by rewrite omap_app, Hl; simpl; rewrite He, app_nil_r.
Qed.

Lemma respects_modify_preserved h :
  (forall i, g (h i) = g i) -> respects (preserved f g) (modify h).
Proof. intros Hh w0 w [Hl Hi]. split; simpl; [done|]. by rewrite Hh. Qed.

Lemma respects_create_view_preserved dev info :
  (forall v, f (CreateImageView dev info v) = None) ->
  respects (preserved f g) (vkCreateImageView dev info).
Proof.
  intros He w0 w [Hl Hi]. split; simpl; [|done].
  by rewrite omap_app, Hl; simpl; rewrite He, app_nil_r.
Qed.

Lemma respects_allocate_preserved dev info slot :
  (forall r, f (AllocateDescriptorSets dev info slot r) = None) ->
  (forall s i, g (with_sets s i) = g i) ->
  respects (preserved f g) (vkAllocateDescriptorSets dev info slot).
Proof.
  intros He Hg w0 w [Hl Hi]. unfold vkAllocateDescriptorSets.
  destruct (drv_allocate_set _ _); split; simpl;
    rewrite ?Hg; try done;
    by rewrite omap_app, Hl; simpl; rewrite He, app_nil_r.
Qed.

Lemma respects_update_preserved dev write :
  f (UpdateDescriptorSets dev write) = None ->
  respects (preserved f g) (vkUpdateDescriptorSets dev write).
Proof. apply respects_emit_preserved. Qed.

Lemma respects_cmd_bind_preserved cmdbuf bp pl first s :
  f (CmdBindDescriptorSets cmdbuf bp pl first s) = None ->
  respects (preserved f g) (vkCmdBindDescriptorSets cmdbuf bp pl first s).
Proof. apply respects_emit_preserved. Qed.

Lemma respects_push_cleanup_preserved dev view :
  (forall c i, g (with_cleanup c i) = g i) ->
  respects (preserved f g) (push_cleanup dev view).
Proof. intros Hg. apply respects_modify_preserved. intros i. apply Hg. Qed.

(** What is left alone step by step is left alone by the whole
    computation, and a property that only depends on the observations
    carries over. *)
Lemma preserved_final {A} (m : M A) w :
  respects (preserved f g) m -> preserved f g w (final_world (m w)).
Proof. intros Hm. apply Hm, preserved_refl. Qed.

End preserved_facts.

(** Splits a computation along its binds; the leaves are device calls
    and field updates that leave the observations alone. *)
Ltac preserved_steps :=
  repeat first
    [ solve [auto with helper]
    | apply respects_update_preserved; solve [done]
    | apply respects_cmd_bind_preserved; solve [done]
    | apply respects_push_cleanup_preserved; solve [done]
    | apply respects_create_view_preserved; solve [done]
    | apply respects_allocate_preserved; solve [done | intros; done]
    | apply respects_modify_preserved; solve [done]
    | apply respects_emit_preserved; solve [done]
    | apply respects_bind; [|intros]
    | apply respects_for_each; intros
    | match goal with |- respects _ (match ?x with _ => _ end) => destruct x end
    | match goal with |- respects _ (if ?x then _ else _) => destruct x end ].

Section preserved_by_calls.
Context {drv : Driver}.

(** A look-up touches neither the views, nor the writes, nor the binds,
    nor the release actions, nor the flag. *)
Lemma get_or_create_set_preserves_views set :
  respects (preserved view_of cleanup) (get_or_create_set set).
Proof. unfold get_or_create_set. preserved_steps. Qed.

Lemma get_or_create_set_preserves_writes set :
  respects (preserved write_of (fun _ => tt)) (get_or_create_set set).
Proof. unfold get_or_create_set. preserved_steps. Qed.

Lemma get_or_create_set_preserves_binds set :
  respects (preserved bind_of (fun _ => tt)) (get_or_create_set set).
Proof. unfold get_or_create_set. preserved_steps. Qed.

Lemma get_or_create_set_preserves_flag set :
  respects (preserved no_event (fun i => (committed i, pool i, cleanup i)))
    (get_or_create_set set).
Proof. unfold get_or_create_set. preserved_steps. Qed.

End preserved_by_calls.

(** ** Construction and the first look-up *)

Section construction.
Context {drv : Driver}.

Lemma published_fresh d l r bp cmdbuf :
  published (impl (Impl_ctor d l r bp)) cmdbuf = [].
Proof.
  unfold published. apply omap_seq_none. intros i _.
  unfold table_bind. simpl.
  destruct (replicate _ _ !! i) as [s|] eqn:Hs; [|done].
  apply lookup_replicate in Hs as [-> _]. by rewrite decide_True.
Qed.

(** X1. The pool the constructor asks for: it may free single sets, it
    serves as many sets as the pipeline layout declares (as a
    [uint32_t]), and it has one size entry per resource kind that occurs
    in the reflected layout, holding that kind's total count modulo
    2^32; kinds that do not occur have no entry and no kind has two.
    The helper keeps the handle the device answers, and this is the
    only device call of the constructor. *)
Theorem constructor_sizes_pool_by_kind d l r bp :
  let w := Impl_ctor d l r bp in
  exists info,
    log w = [CreateDescriptorPool d info (pool (impl w))]
    /\ pool (impl w) = drv_create_pool [] info
    /\ flags info = VK_DESCRIPTOR_POOL_CREATE_FREE_DESCRIPTOR_SET_BIT
    /\ maxSets info = uint32_of_size (length (set_layouts l))
    /\ NoDup (pPoolSizes info).*1
    /\ (forall k n,
          (k, n) ∈ pPoolSizes info
          <-> bindings_of_kind k r <> []
              /\ n = (kind_total k r mod 2 ^ 32)%N).
Proof.
  intros w. eexists. split; [reflexivity|]. simpl.
  do 3 (split; [done|]). split; [apply NoDup_fst_map_to_list|].
  intros k n. rewrite elem_of_map_to_list, descriptor_counts_lookup.
  destruct (bindings_of_kind k r); split.
  - done.
  - by intros [? _].
  - by intros [= <-].
  - by intros [_ ->].
Qed.

(** X2. A helper that has just been built holds no table: publishing
    it, with [commit] or with [commit_frame], records no bind at all,
    whatever the layout, and destroying it makes exactly two device
    calls after the construction: the table array is freed and the pool
    that was created is destroyed.  No view is released. *)
Theorem fresh_helper_publishes_nothing d l r bp cmdbuf :
  let w := Impl_ctor d l r bp in
  commit_frame cmdbuf w = Return tt w
  /\ commit cmdbuf w =
       Return tt {| impl := with_committed true (impl w); log := log w |}
  /\ DescriptorBindHelper_dtor w =
       log w ++ [FreeSets; DestroyDescriptorPool d (pool (impl w))]
  /\ DescriptorBindHelper_dtor
       {| impl := with_committed true (impl w); log := log w |} =
       log w ++ [FreeSets; DestroyDescriptorPool d (pool (impl w))].
Proof.
  intros w.
  assert (length (sets (impl w)) = nsets (impl w)) as Hlen
    by apply length_replicate.
  pose proof (published_fresh d l r bp cmdbuf) as Hnone. fold w in Hnone.
  split; [|split].
  - by rewrite commit_frame_unfold, Hnone, app_nil_r.
  - by rewrite commit_unfold, Hnone, app_nil_r.
  - done.
Qed.

(** X3. When the device fails to allocate the table of a slot,
    [get_or_create_set] throws and the helper is as it was: the slot is
    still empty and only the failed request has been added to the log.
    The helper stays usable: the next look-up of the slot asks the
    device again and, if that succeeds, stores and returns the new
    table. *)
Theorem failed_allocation_is_retried set sl w :
  sets (impl w) !! set = Some VK_NULL_HANDLE ->
  set_layouts (layout (impl w)) !! set = Some sl ->
  let info := {| descriptorPool := pool (impl w); descriptorSetCount := 1;
                 pSetLayouts := sl |} in
  let attempt := AllocateDescriptorSets (device (impl w)) info set in
  drv_allocate_set (log w) info = None ->
  let w1 := {| impl := impl w; log := log w ++ [attempt None] |} in
  get_or_create_set set w = Throw VkCheckFailed w1
  /\ (forall s,
        drv_allocate_set (log w1) info = Some s ->
        get_or_create_set set w1 =
          Return s
            {| impl := with_sets (<[set := s]> (sets (impl w))) (impl w);
               log := log w1 ++ [attempt (Some s)] |}).
Proof.
  intros Hs Hsl info attempt Hfail w1. split.
  - rewrite get_or_create_set_unfold, Hs, decide_True, Hsl by done.
    simpl. fold info. by rewrite Hfail.
  - intros s Hok.
    rewrite get_or_create_set_unfold. simpl.
    rewrite Hs, decide_True, Hsl by done. simpl. fold info.
    change (log w ++ [attempt None]) with (log w1). by rewrite Hok.
Qed.

(** X4. Besides the bound of the table array, the first look-up of a
    slot has a second, separate precondition: it reads
    [layout.set_layouts[set]] unchecked, so the pipeline layout must
    declare a set of that index.  On a live helper a look-up runs off
    an array exactly when the index is not below the reflected set
    count, or the slot is still empty and the index is not below the
    number of set layouts.  When the pipeline layout declares at least
    as many sets as the reflection lists, no look-up below the
    reflected count does. *)
Theorem first_lookup_needs_a_set_layout d l r bp w set :
  reachable d l r bp w ->
  ((exists u w', get_or_create_set set w = Undefined u w')
   <-> ~ set < length (set_bindings r)
       \/ (sets (impl w) !! set = Some VK_NULL_HANDLE
           /\ ~ set < length (set_layouts l)))
  /\ (sets (impl w) !! set = Some VK_NULL_HANDLE ->
      (get_or_create_set set w = Undefined SetLayoutsOutOfRange w
       <-> ~ set < length (set_layouts l)))
  /\ (length (set_bindings r) <= length (set_layouts l) ->
      set < length (set_bindings r) ->
      forall u w', get_or_create_set set w <> Undefined u w').
Proof.
  intros Hr. apply reachable_helper_inv in Hr as [_ Hl _ _ _ Hlen _ _ _].
  rewrite <- Hlen, <- Hl.
  assert (forall u w',
            get_or_create_set set w = Undefined u w' ->
            ~ set < length (sets (impl w))
            \/ (sets (impl w) !! set = Some VK_NULL_HANDLE
                /\ ~ set < length (set_layouts (layout (impl w))))) as Hub.
  { intros u w'. rewrite get_or_create_set_unfold.
    destruct (sets (impl w) !! set) as [s|] eqn:Hs.
    - case_decide as Hz; [subst s|done].
      destruct (set_layouts _ !! set) eqn:Hsl.
      + simpl. by destruct (drv_allocate_set _ _).
      + intros _. right. split; [done|].
        apply lookup_ge_None in Hsl. lia.
    - intros _. left. apply lookup_ge_None in Hs. lia. }
  split; [|split].
  - split; [intros (u & w' & Hu); by eapply Hub|].
    intros [Hge|[Hs Hge]].
    + exists SetsOutOfRange, w. by apply get_or_create_set_out_of_range.
    + exists SetLayoutsOutOfRange, w.
      rewrite get_or_create_set_unfold, Hs, decide_True by done.
      by rewrite (lookup_ge_None_2 (set_layouts _) set) by lia.
  - intros Hs. rewrite get_or_create_set_unfold, Hs, decide_True by done.
    split.
    + intros Hu Hlt. apply lookup_lt_is_Some_2 in Hlt as [sl Hsl].
      rewrite Hsl in Hu. simpl in Hu. by destruct (drv_allocate_set _ _).
    + intros Hge. by rewrite (lookup_ge_None_2 (set_layouts _) set) by lia.
  - intros Hle Hlt u w' Hu. apply Hub in Hu as [Hge|[_ Hge]]; lia.
Qed.

(** X5. [set_storage_image] takes an explicit view type and an explicit
    sub-resource range as they are given: the view it creates has
    exactly that type and range, the image's own type and range are not
    looked at (two images with the same handle and format are treated
    alike), and so the call never throws "Unknown image type", also for
    an image of unknown type. *)
Theorem explicit_view_type_is_taken_as_given set binding image sub vt w :
  committed (impl w) = false ->
  let info := {| image := Image.handle image; viewType := vt;
                 format := Image.format image; subresourceRange := sub |} in
  (exists rest,
     log (final_world
            (set_storage_image set binding image (Some sub) (Some vt) w)) =
       log w
       ++ CreateImageView (device (impl w)) info
            (drv_create_view (log w) info) :: rest)
  /\ (forall w',
        set_storage_image set binding image (Some sub) (Some vt) w <>
          Throw UnknownImageType w')
  /\ (forall image',
        Image.handle image' = Image.handle image ->
        Image.format image' = Image.format image ->
        set_storage_image set binding image' (Some sub) (Some vt) w =
        set_storage_image set binding image (Some sub) (Some vt) w).
Proof.
  intros Hc info. rewrite set_storage_image_unfold, Hc. simpl.
  split; [|split].
  - edestruct after_view_log_extends as [t Ht]. rewrite Ht. simpl.
    exists t. by rewrite <- app_assoc.
  - intros w'. unfold after_view.
    destruct (get_or_create_set _ _) eqn:Hg; try done.
    apply get_or_create_set_throws in Hg as ->. done.
  - intros image' Hh Hf. rewrite set_storage_image_unfold, Hc. simpl.
    unfold storage_view_info. by rewrite Hh, Hf.
Qed.

End construction.

Lemma failed_allocation_is_retried_witness :
  get_or_create_set (drv := flaky_driver) 0 (two_set_helper flaky_driver)
  = Throw VkCheckFailed
      {| impl := impl (two_set_helper flaky_driver);
         log := log (two_set_helper flaky_driver)
                ++ [AllocateDescriptorSets 1
                      {| descriptorPool := 1; descriptorSetCount := 1;
                         pSetLayouts := 101 |} 0 None] |}
  /\ get_or_create_set (drv := flaky_driver) 0
       {| impl := impl (two_set_helper flaky_driver);
          log := log (two_set_helper flaky_driver)
                 ++ [AllocateDescriptorSets 1
                       {| descriptorPool := 1; descriptorSetCount := 1;
                          pSetLayouts := 101 |} 0 None] |}
     = Return 3%N
         {| impl := with_sets [3; 0]%N (impl (two_set_helper flaky_driver));
            log := log (two_set_helper flaky_driver)
                   ++ [AllocateDescriptorSets 1
                         {| descriptorPool := 1; descriptorSetCount := 1;
                            pSetLayouts := 101 |} 0 None;
                       AllocateDescriptorSets 1
                         {| descriptorPool := 1; descriptorSetCount := 1;
                            pSetLayouts := 101 |} 0 (Some 3%N)] |}.
Proof.
  destruct (failed_allocation_is_retried (drv := flaky_driver) 0 101%N
              (two_set_helper flaky_driver)) as [Hthrow Hretry];
    [reflexivity|reflexivity|reflexivity|].
  split; [exact Hthrow|]. exact (Hretry 3%N eq_refl).
Defined.

Lemma first_lookup_needs_a_set_layout_witness :
  get_or_create_set (drv := numbering_driver) 1
    (Impl_ctor (drv := numbering_driver) 1 one_set_layout two_set_reflection
       VK_PIPELINE_BIND_POINT_COMPUTE)
  = Undefined SetLayoutsOutOfRange
      (Impl_ctor (drv := numbering_driver) 1 one_set_layout two_set_reflection
         VK_PIPELINE_BIND_POINT_COMPUTE)
  /\ forall u w',
       get_or_create_set (drv := numbering_driver) 1
         (two_set_helper numbering_driver) <> Undefined u w'.
Proof.
  split.
  - destruct (first_lookup_needs_a_set_layout (drv := numbering_driver)
                1 one_set_layout two_set_reflection
                VK_PIPELINE_BIND_POINT_COMPUTE
                (Impl_ctor (drv := numbering_driver) 1 one_set_layout
                   two_set_reflection VK_PIPELINE_BIND_POINT_COMPUTE) 1)
      as (_ & Hlayout & _); [apply steps_here|].
    apply Hlayout; [reflexivity|simpl; lia].
  - destruct (first_lookup_needs_a_set_layout (drv := numbering_driver)
                1 two_set_layout two_set_reflection
                VK_PIPELINE_BIND_POINT_COMPUTE
                (two_set_helper numbering_driver) 1)
      as (_ & _ & Hsafe); [apply steps_here|].
    apply Hsafe; simpl; lia.
Defined.

Lemma explicit_view_type_is_taken_as_given_witness :
  exists rest,
    log (final_world
           (set_storage_image (drv := numbering_driver) 0 0 image_odd
              (Some (whole_range 1)) (Some VK_IMAGE_VIEW_TYPE_2D)
              (two_set_helper numbering_driver))) =
      log (two_set_helper numbering_driver)
      ++ CreateImageView 1
           {| image := 8; viewType := VK_IMAGE_VIEW_TYPE_2D; format := 37;
              subresourceRange := whole_range 1 |} 2 :: rest.
Proof.
  destruct (explicit_view_type_is_taken_as_given (drv := numbering_driver)
              0 0 image_odd (whole_range 1) VK_IMAGE_VIEW_TYPE_2D
              (two_set_helper numbering_driver)) as (Hview & _ & _);
    [reflexivity|].
  exact Hview.
Defined.

(** ** The flag, the pool and the table array over a run *)

Section over_a_run.
Context {drv : Driver}.

Lemma run_call_preserves_pool c :
  respects (preserved no_event pool) (run_call c).
Proof.
  destruct c; simpl;
    unfold set_storage_image, set_combined_image_sampler, set_uniform_buffer,
      commit, commit_frame, for_range, bind_loop_body, image_type_to_view_type,
      get_or_create_set;
    preserved_steps.
Qed.

Lemma run_call_preserves_flag c :
  is_commit c = false ->
  respects (preserved no_event committed) (run_call c).
Proof.
  intros Hc. destruct c; try done; simpl;
    unfold set_storage_image, set_combined_image_sampler, set_uniform_buffer,
      commit_frame, for_range, bind_loop_body, image_type_to_view_type,
      get_or_create_set;
    preserved_steps.
Qed.

Lemma step_pool w w' : step w w' -> pool (impl w') = pool (impl w).
Proof.
  destruct 1 as [c w w' Hr].
  destruct (preserved_final _ _ _ w (run_call_preserves_pool c)) as [_ Hp].
  destruct (run_call c w); simpl in *; congruence.
Qed.

Lemma steps_pool w w' : steps w w' -> pool (impl w') = pool (impl w).
Proof.
  induction 1 as [|w1 w2 w3 _ IH Hs]; [done|].
  rewrite <- IH. by apply step_pool.
Qed.

Lemma resumes_flag d l r bp w c w' :
  helper_inv d l r bp w ->
  resumes (run_call c w) = Some w' ->
  committed (impl w') = true
  <-> committed (impl w) = true \/ is_commit c = true.
Proof.
  intros Hinv Hr. destruct (is_commit c) eqn:Hc.
  - destruct c; try done. simpl in Hr.
    rewrite commit_unfold in Hr
      by (destruct Hinv; congruence).
    destruct (committed (impl w)); [done|].
    injection Hr as <-. simpl. by split; [right|].
  - destruct (preserved_final _ _ _ w (run_call_preserves_flag c Hc))
      as [_ Hf].
    assert (committed (impl w') = committed (impl w)) as ->.
    { destruct (run_call c w); simpl in *; congruence. }
    split; [by left|]. by intros [|].
Qed.

(** X6. The [committed] flag goes one way.  A call that gives control
    back leaves a live helper committed exactly when it was committed
    before or the call is [commit]; so once set the flag stays set over
    any further calls, and nothing but [commit] sets it.  A committed
    helper gives control back only from calls that do not assert on the
    flag: [get_or_create_set], [set_uniform_buffer] and [commit_frame]. *)
Theorem committed_flag_is_one_way d l r bp w :
  reachable d l r bp w ->
  (forall c w',
     resumes (run_call c w) = Some w' ->
     (committed (impl w') = true
      <-> committed (impl w) = true \/ is_commit c = true))
  /\ (forall w',
        steps w w' -> committed (impl w) = true -> committed (impl w') = true)
  /\ (committed (impl w) = true ->
      forall c w',
        resumes (run_call c w) = Some w' -> answers_when_committed c = true).
Proof.
  intros Hr. split; [|split].
  - intros c w'. eapply resumes_flag. by apply reachable_helper_inv.
  - intros w' Hs Hc. revert Hc.
    induction Hs as [|w1 w2 w3 H12 IH H23]; [done|].
    intros Hc. destruct H23 as [c w2 w3 Hres].
    eapply resumes_flag; [|exact Hres|left; by apply IH].
    eapply reachable_helper_inv, steps_trans; eauto.
  - intros Hc c w' Hres.
    pose proof (reachable_helper_inv _ _ _ _ _ Hr) as Hinv.
    destruct c; try done; simpl in Hres.
    + by rewrite set_storage_image_unfold, Hc in Hres.
    + by rewrite set_combined_image_sampler_unfold, Hc in Hres.
    + rewrite commit_unfold, Hc in Hres by (destruct Hinv; congruence).
      done.
Qed.

(** *** The tables and the allocations *)

Lemma tables_all_null (ss : list N) :
  Forall (fun s => s = VK_NULL_HANDLE) ss ->
  filter (fun s => s <> VK_NULL_HANDLE) ss = [].
Proof.
  induction 1 as [|s ss Hs _ IH]; [done|].
  by rewrite filter_cons_False by (intros Hn; apply Hn, Hs).
Qed.

Lemma tables_replicate_null n :
  filter (fun s => s <> VK_NULL_HANDLE) (replicate n VK_NULL_HANDLE) = [].
Proof.
  apply tables_all_null, Forall_forall. by intros s [-> _]%elem_of_replicate.
Qed.

Lemma tables_insert (ss : list N) set s :
  ss !! set = Some VK_NULL_HANDLE -> s <> VK_NULL_HANDLE ->
  Permutation (filter (fun s => s <> VK_NULL_HANDLE) (<[set := s]> ss))
              (s :: filter (fun s => s <> VK_NULL_HANDLE) ss).
Proof.
  revert set. induction ss as [|x ss IH]; intros set Hs Hnz; [done|].
  destruct set as [|set]; simpl in *.
  - injection Hs as ->.
    rewrite filter_cons_True by done.
    by rewrite filter_cons_False by (intros Hn; by apply Hn).
  - rewrite !filter_cons. specialize (IH set Hs Hnz).
    case_decide; [|done]. rewrite IH. apply perm_swap.
Qed.

Lemma tables_accounted_preserved w w' :
  preserved allocation_of sets w' w ->
  tables_accounted w -> tables_accounted w'.
Proof.
  unfold tables_accounted, tables, all_allocations. intros [Hl Hs].
  change (omap allocation_of (log w) = omap allocation_of (log w')) in Hl.
  intros Ht. change (Permutation (omap allocation_of (log w'))
                       (filter (fun s => s <> VK_NULL_HANDLE) (sets (impl w')))).
  by rewrite <- Hl, <- Hs.
Qed.

Lemma respects_tables_of_preserved {A} (m : M A) :
  respects (preserved allocation_of sets) m ->
  respects (fun _ w => tables_accounted w) m.
Proof.
  intros Hm w0 w Ht. eapply tables_accounted_preserved; [|exact Ht].
  destruct (preserved_final _ _ m w Hm) as [Hl Hs]. by split.
Qed.

Lemma respects_get_or_create_set_tables set :
  respects (fun _ w => tables_accounted w) (get_or_create_set set).
Proof.
  intros w0 w Ht. rewrite get_or_create_set_unfold.
  destruct (sets (impl w) !! set) as [s|] eqn:Hs; [|done].
  destruct (decide (s = VK_NULL_HANDLE)) as [->|Hnz]; [|done].
  destruct (set_layouts _ !! set) as [sl|]; [|done]. simpl.
  unfold tables_accounted, tables, all_allocations in *.
  destruct (drv_allocate_set _ _) as [s'|] eqn:Ha; simpl.
  - rewrite omap_app. simpl.
    rewrite tables_insert by eauto using drv_allocate_set_nonnull.
    rewrite Ht. symmetry. apply Permutation_cons_append.
  - rewrite omap_app. simpl. by rewrite app_nil_r.
Qed.

Lemma run_call_tables c :
  respects (fun _ w => tables_accounted w) (run_call c).
Proof.
  destruct c; simpl;
    unfold set_storage_image, set_combined_image_sampler, set_uniform_buffer,
      commit, commit_frame, for_range, bind_loop_body, image_type_to_view_type;
    repeat first
      [ apply respects_get_or_create_set_tables
      | solve [auto with helper]
      | solve [apply respects_tables_of_preserved; preserved_steps]
      | apply respects_bind; [|intros]
      | apply respects_for_each; intros
      | match goal with |- respects _ (match ?x with _ => _ end) => destruct x end
      | match goal with |- respects _ (if ?x then _ else _) => destruct x end ].
Qed.

Lemma steps_tables_accounted w w' :
  steps w w' -> tables_accounted w -> tables_accounted w'.
Proof.
  induction 1 as [|w1 w2 w3 _ IH Hs]; [done|]. intros Hw.
  destruct Hs as [c w2 w3 Hres].
  pose proof (run_call_tables c w2 w2 (IH Hw)) as Ht.
  destruct (run_call c w2); simpl in *; congruence.
Qed.

Lemma reachable_tables_accounted d l r bp w :
  reachable d l r bp w -> tables_accounted w.
Proof.
  intros Hr. eapply steps_tables_accounted; [exact Hr|].
  unfold tables_accounted.
  replace (tables (impl (Impl_ctor d l r bp))) with (@nil N); [done|].
  symmetry. apply tables_replicate_null.
Qed.

Lemma tables_within_set_layouts d l r bp w :
  helper_inv d l r bp w ->
  length (tables (impl w)) <= length (set_layouts l).
Proof.
  intros [_ _ _ _ _ _ _ Hlay _]. unfold tables.
  rewrite <- (take_drop (length (set_layouts l)) (sets (impl w))) at 1.
  rewrite filter_app.
  assert (filter (fun s => s <> VK_NULL_HANDLE)
            (drop (length (set_layouts l)) (sets (impl w))) = []) as ->.
  { apply tables_all_null, Forall_lookup. intros i s Hs.
    rewrite lookup_drop in Hs.
    destruct (decide (s = VK_NULL_HANDLE)) as [|Hnz]; [done|].
    apply Hlay in Hs; [lia|done]. }
  rewrite app_nil_r. etrans; [apply length_filter|].
  rewrite length_take. lia.
Qed.

(** X7. The pool is never asked for more than it was sized for.  On a
    live helper the successful allocations in the log are exactly the
    tables sitting in the table array, each once; so there are never
    more of them than reflected sets, nor more than set layouts in the
    pipeline layout, which is the [maxSets] the pool was created with
    (as long as that number fits a [uint32_t]). *)
Theorem pool_capacity_is_never_exceeded d l r bp w :
  reachable d l r bp w ->
  Permutation (all_allocations (log w)) (tables (impl w))
  /\ length (all_allocations (log w)) <= length (set_bindings r)
  /\ length (all_allocations (log w)) <= length (set_layouts l)
  /\ ((N.of_nat (length (set_layouts l)) < 2 ^ 32)%N ->
      (N.of_nat (length (all_allocations (log w)))
       <= uint32_of_size (length (set_layouts l)))%N).
Proof.
  intros Hr. pose proof (reachable_tables_accounted _ _ _ _ _ Hr) as Ht.
  pose proof (reachable_helper_inv _ _ _ _ _ Hr) as Hinv.
  pose proof (tables_within_set_layouts _ _ _ _ _ Hinv) as Hlay.
  unfold tables_accounted in Ht.
  split; [done|]. rewrite (Permutation_length Ht).
  split; [|split; [done|]].
  - destruct Hinv as [_ _ _ _ _ Hlen _ _ _]. rewrite <- Hlen.
    apply length_filter.
  - intros Hfit. unfold uint32_of_size. rewrite N.mod_small by done. lia.
Qed.

(** *** Release actions and views *)

Lemma Impl_dtor_unfold w :
  Impl_dtor w =
    log w
    ++ [FreeSets; DestroyDescriptorPool (device (impl w)) (pool (impl w))]
    ++ map call_closure (cleanup (impl w)).
Proof.
  unfold Impl_dtor.
  generalize (log w ++ [FreeSets]
              ++ [DestroyDescriptorPool (device (impl w)) (pool (impl w))]).
  rewrite <- !app_assoc. simpl.
  assert (forall fns t,
            foldl (fun t fn => t ++ [call_closure fn]) t fns =
            t ++ map call_closure fns) as Hfold.
  { induction fns as [|fn fns IH]; intros t; simpl.
    - by rewrite app_nil_r.
    - by rewrite IH, <- app_assoc. }
  intros _. rewrite Hfold. by rewrite <- app_assoc.
Qed.

Lemma after_view_views set dev view write w1 :
  let w' := final_world (after_view set dev view write w1) in
  created_views (log w') = created_views (log w1)
  /\ (cleanup (impl w') = cleanup (impl w1)
      \/ cleanup (impl w') =
           cleanup (impl w1)
           ++ [{| cap_deviceHandle := dev; cap_view := view |}]).
Proof.
  unfold after_view.
  destruct (get_or_create_set_keeps_views set w1) as [Hc Hv].
  destruct (get_or_create_set set w1); simpl in *; auto.
  rewrite created_views_app, Hv, Hc. simpl. rewrite app_nil_r. auto.
Qed.

Lemma run_call_preserves_views c :
  match c with
  | Call_set_storage_image _ _ _ _ _
  | Call_set_combined_image_sampler _ _ _ _ => True
  | _ => respects (preserved view_of cleanup) (run_call c)
  end.
Proof.
  destruct c; try done; simpl;
    unfold set_uniform_buffer, commit, commit_frame, for_range,
      bind_loop_body, get_or_create_set;
    preserved_steps.
Qed.

Lemma cleanup_accounted_image_attachment d w info write set :
  device (impl w) = d ->
  cleanup_accounted d w ->
  let view := drv_create_view (log w) info in
  cleanup_accounted d
    (final_world
       (after_view set d view write
          {| impl := impl w;
             log := log w ++ [CreateImageView d info view] |})).
Proof.
  intros Hd [Hsub Hdev] view.
  destruct (after_view_views set d view write
              {| impl := impl w;
                 log := log w ++ [CreateImageView d info view] |})
    as [Hv Hc].
  simpl in Hv, Hc. unfold cleanup_accounted. rewrite Hv, created_views_app.
  destruct Hc as [-> | ->].
  - split; [by apply sublist_inserts_r|done].
  - rewrite map_app. split.
    + by apply sublist_app.
    + apply Forall_app. split; [done|]. by repeat constructor.
Qed.

Lemma step_cleanup_accounted d l r bp w w' :
  helper_inv d l r bp w -> step w w' ->
  cleanup_accounted d w -> cleanup_accounted d w'.
Proof.
  intros Hinv Hs Hacc. destruct Hs as [c w w' Hres].
  pose proof (inv_device _ _ _ _ _ Hinv) as Hd.
  pose proof (run_call_preserves_views c) as Hp.
  assert (forall w1, preserved view_of cleanup w w1 -> cleanup_accounted d w1)
    as Hsame.
  { intros w1 [Hl Hc]. destruct Hacc as [Hsub Hdev].
    unfold cleanup_accounted, created_views in *.
    change (omap view_of (log w1) = omap view_of (log w)) in Hl.
    change (sublist (map cap_view (cleanup (impl w1))) (omap view_of (log w1))
            /\ Forall (fun fn => cap_deviceHandle fn = d) (cleanup (impl w1))).
    by rewrite Hl, Hc. }
  assert (final_world (run_call c w) = w') as <-.
  { destruct (run_call c w); simpl in *; congruence. }
  clear Hres.
  destruct c; simpl in *;
    try (apply Hsame; by apply preserved_final).
  - rewrite set_storage_image_unfold.
    destruct (committed (impl w)); [done|].
    destruct (resolved_view_type _ _); [|done].
    rewrite Hd. by apply cleanup_accounted_image_attachment.
  - rewrite set_combined_image_sampler_unfold.
    destruct (committed (impl w)); [done|].
    rewrite Hd. by apply cleanup_accounted_image_attachment.
Qed.

Lemma reachable_cleanup_accounted d l r bp w :
  reachable d l r bp w -> cleanup_accounted d w.
Proof.
  unfold reachable.
  assert (forall w0, steps w0 w -> helper_inv d l r bp w0 ->
                     cleanup_accounted d w0 -> cleanup_accounted d w) as Hgen.
  { induction 1 as [|w1 w2 w3 H12 IH H23]; [done|]. intros Hinv Hacc.
    eapply step_cleanup_accounted; [|exact H23|by apply IH].
    by eapply steps_helper_inv. }
  intros Hr. apply (Hgen _ Hr); [apply helper_inv_ctor|].
  split; simpl; [apply sublist_nil_l|constructor].
Qed.

(** X8. Destroying a live helper gives back what the helper took and
    nothing else.  The destructor destroys, on the helper's device, the
    pool the constructor created; the views it then releases, on the
    same device, are views this helper created, each at most once and
    in the order of their creation.  (A view whose attachment threw is
    among the created ones and not among the released.) *)
Theorem destruction_releases_only_what_was_created d l r bp w :
  reachable d l r bp w ->
  DescriptorBindHelper_dtor w =
    log w
    ++ [FreeSets;
        DestroyDescriptorPool d (pool (impl (Impl_ctor d l r bp)))]
    ++ map (fun fn => DestroyImageView d (cap_view fn)) (cleanup (impl w))
  /\ released_views (DescriptorBindHelper_dtor w) =
       map cap_view (cleanup (impl w))
  /\ sublist (released_views (DescriptorBindHelper_dtor w))
             (created_views (log w)).
Proof.
  intros Hr.
  pose proof (reachable_helper_inv _ _ _ _ _ Hr) as Hinv.
  destruct (reachable_cleanup_accounted _ _ _ _ _ Hr) as [Hsub Hdev].
  pose proof (steps_pool _ _ Hr) as Hpool.
  pose proof (inv_device _ _ _ _ _ Hinv) as Hd.
  assert (map call_closure (cleanup (impl w)) =
          map (fun fn => DestroyImageView d (cap_view fn)) (cleanup (impl w)))
    as Hmap.
  { clear Hsub. induction Hdev as [|fn fns Hfn _ IH]; [done|].
    simpl. unfold call_closure at 1. by rewrite Hfn, IH. }
  assert (released_views
            (map (fun fn => DestroyImageView d (cap_view fn))
                 (cleanup (impl w))) = map cap_view (cleanup (impl w)))
    as Hrel.
  { clear. induction (cleanup (impl w)) as [|fn fns IH]; [done|].
    change (cap_view fn
            :: released_views
                 (map (fun fn => DestroyImageView d (cap_view fn)) fns) =
            cap_view fn :: map cap_view fns).
    by rewrite IH. }
  unfold DescriptorBindHelper_dtor.
  rewrite Impl_dtor_unfold, Hmap, Hd, Hpool.
  split; [done|].
  assert (released_views
            (log w
             ++ [FreeSets;
                 DestroyDescriptorPool d (pool (impl (Impl_ctor d l r bp)))]
             ++ map (fun fn => DestroyImageView d (cap_view fn))
                    (cleanup (impl w))) = map cap_view (cleanup (impl w)))
    as ->.
  { rewrite !released_views_app, Hrel.
    rewrite released_views_live by by destruct Hinv. done. }
  by split.
Qed.

End over_a_run.

Lemma committed_flag_is_one_way_witness :
  committed
    (impl (final_world
             (set_uniform_buffer (drv := numbering_driver) 1 0 0 a_buffer 0 64
                two_set_helper_committed))) = true.
Proof.
  destruct (committed_flag_is_one_way (drv := numbering_driver)
              1 two_set_layout two_set_reflection
              VK_PIPELINE_BIND_POINT_COMPUTE two_set_helper_committed)
    as (_ & Hstays & _).
  - eapply steps_more; [apply steps_here|].
    by apply (step_call (drv := numbering_driver) (Call_commit 50)).
  - apply Hstays; [|reflexivity].
    eapply steps_more; [apply steps_here|].
    by apply (step_call (drv := numbering_driver)
                (Call_set_uniform_buffer 1 0 0 a_buffer 0 64)).
Defined.

Lemma pool_capacity_is_never_exceeded_witness :
  length (all_allocations (log two_set_helper_attached)) <= 2
  /\ (N.of_nat (length (all_allocations (log two_set_helper_attached)))
      <= uint32_of_size 2)%N.
Proof.
  destruct (pool_capacity_is_never_exceeded (drv := numbering_driver)
              1 two_set_layout two_set_reflection
              VK_PIPELINE_BIND_POINT_COMPUTE two_set_helper_attached)
    as (_ & _ & Hlayouts & Hmax).
  - apply reachable_two_set_helper_attached.
  - split; [exact Hlayouts|]. apply Hmax. reflexivity.
Defined.

Lemma destruction_releases_only_what_was_created_witness :
  released_views (DescriptorBindHelper_dtor two_set_helper_attached) = [2%N].
Proof.
  destruct (destruction_releases_only_what_was_created (drv := numbering_driver)
              1 two_set_layout two_set_reflection
              VK_PIPELINE_BIND_POINT_COMPUTE two_set_helper_attached)
    as (_ & Hreleased & _).
  - apply reachable_two_set_helper_attached.
  - exact Hreleased.
Defined.

(** ** What the writes and the binds refer to *)

Section references.
Context {drv : Driver}.

Lemma table_persists d l r bp w w' slot s :
  helper_inv d l r bp w -> helper_inv d l r bp w' -> log_extends w w' ->
  sets (impl w) !! slot = Some s -> s <> VK_NULL_HANDLE ->
  sets (impl w') !! slot = Some s.
Proof.
  intros Hi Hi' [t Ht] Hs Hnz.
  pose proof (inv_alloc _ _ _ _ _ Hi slot) as Ha.
  pose proof (inv_alloc _ _ _ _ _ Hi' slot) as Ha'.
  rewrite Hs, decide_False in Ha by done.
  rewrite Ht, allocations_app, Ha in Ha'.
  destruct (sets (impl w') !! slot) as [s'|]; [|done].
  case_decide; [done|]. by injection Ha' as -> _.
Qed.

Lemma held_table_is_allocated d l r bp w slot s :
  helper_inv d l r bp w ->
  sets (impl w) !! slot = Some s -> s <> VK_NULL_HANDLE ->
  allocations slot (log w) = [s].
Proof.
  intros Hi Hs Hnz. rewrite (inv_alloc _ _ _ _ _ Hi), Hs.
  by rewrite decide_False.
Qed.

Lemma resumes_final {A} (o : outcome A) w' :
  resumes o = Some w' -> final_world o = w'.
Proof. destruct o; simpl; congruence. Qed.

Lemma resumes_helper_inv d l r bp c w w' :
  helper_inv d l r bp w -> resumes (run_call c w) = Some w' ->
  helper_inv d l r bp w' /\ log_extends w w'.
Proof.
  intros Hi Hres. split.
  - eapply step_helper_inv; [|exact Hi]. by econstructor.
  - apply step_log_extends. by econstructor.
Qed.

(** *** Writes *)

Lemma run_call_preserves_writes c :
  match c with
  | Call_set_storage_image _ _ _ _ _
  | Call_set_combined_image_sampler _ _ _ _
  | Call_set_uniform_buffer _ _ _ _ _ _ => True
  | _ => respects (preserved write_of (fun _ => tt)) (run_call c)
  end.
Proof.
  destruct c; try done; simpl;
    unfold commit, commit_frame, for_range, bind_loop_body, get_or_create_set;
    preserved_steps.
Qed.

Lemma writes_snoc t dev write :
  writes (t ++ [UpdateDescriptorSets dev write]) = writes t ++ [(dev, write)].
Proof. unfold writes. by rewrite omap_app. Qed.

Lemma writes_snoc_view t dev info view :
  writes (t ++ [CreateImageView dev info view]) = writes t.
Proof. unfold writes. rewrite omap_app. apply app_nil_r. Qed.

Lemma get_or_create_set_writes set w :
  writes (log (final_world (get_or_create_set set w))) = writes (log w).
Proof.
  by destruct (preserved_final _ _ _ w (get_or_create_set_preserves_writes set)).
Qed.

Lemma after_view_writes set dev view mk w1 dev' write :
  (forall dst, dstSet (mk dst) = dst /\ write_descriptorCount (mk dst) = 1%N) ->
  let w' := final_world (after_view set dev view mk w1) in
  (dev', write) ∈ writes (log w') ->
  (dev', write) ∈ writes (log w1) \/ fresh_write w' write.
Proof.
  intros Hmk. unfold after_view.
  pose proof (get_or_create_set_writes set w1) as Hw.
  destruct (get_or_create_set set w1) as [dst w2| | |] eqn:Hg;
    simpl in *; rewrite <- ?Hw; auto.
  rewrite writes_snoc, elem_of_app, list_elem_of_singleton.
  intros [Hold|[= -> ->]]; [by left|right].
  destruct (Hmk dst) as [Hdst Hcount].
  apply get_or_create_set_returns in Hg as [Hs Hnz].
  split; [done|]. exists set. by rewrite Hdst.
Qed.

Lemma resumes_writes c w w' dev write :
  resumes (run_call c w) = Some w' ->
  (dev, write) ∈ writes (log w') ->
  (dev, write) ∈ writes (log w) \/ fresh_write w' write.
Proof.
  intros Hres. apply resumes_final in Hres as <-.
  pose proof (run_call_preserves_writes c) as Hp.
  destruct c; simpl in *;
    try (destruct (preserved_final _ _ _ w Hp) as [Hl _];
         intros Hin; left; unfold writes in *; by rewrite <- Hl).
  - rewrite set_storage_image_unfold.
    destruct (committed (impl w)); [by left|].
    destruct (resolved_view_type _ _); [|by left].
    intros [Hold|Hnew]%after_view_writes; [|by right|done].
    left. simpl in Hold. by rewrite writes_snoc_view in Hold.
  - rewrite set_combined_image_sampler_unfold.
    destruct (committed (impl w)); [by left|].
    intros [Hold|Hnew]%after_view_writes; [|by right|done].
    left. simpl in Hold. by rewrite writes_snoc_view in Hold.
  - rewrite set_uniform_buffer_unfold.
    pose proof (get_or_create_set_writes set w) as Hw.
    destruct (get_or_create_set set w) as [dst w2| | |] eqn:Hg;
      simpl in *; rewrite <- ?Hw; auto.
    rewrite writes_snoc, elem_of_app, list_elem_of_singleton.
    intros [Hold|[= -> ->]]; [by left|right].
    apply get_or_create_set_returns in Hg as [Hs Hnz].
    split; [done|]. by exists set.
Qed.

Lemma steps_fresh_writes d l r bp w0 w :
  steps w0 w -> helper_inv d l r bp w0 ->
  (forall dev write, (dev, write) ∈ writes (log w0) -> fresh_write w0 write) ->
  forall dev write, (dev, write) ∈ writes (log w) -> fresh_write w write.
Proof.
  induction 1 as [|w1 w2 w3 H12 IH H23]; [done|].
  intros Hi1 Hbase dev write Hin. destruct H23 as [c w2 w3 Hres].
  assert (helper_inv d l r bp w2) as Hi2 by by eapply steps_helper_inv.
  destruct (resumes_helper_inv _ _ _ _ _ _ _ Hi2 Hres) as [Hi3 Hext].
  destruct (resumes_writes _ _ _ _ _ Hres Hin) as [Hold|Hnew]; [|done].
  destruct (IH Hi1 Hbase _ _ Hold) as (Hcount & slot & Hs & Hnz).
  split; [done|]. exists slot. split; [|done].
  by apply (table_persists d l r bp w2 w3).
Qed.

(** X9. Every descriptor write a live helper has issued, through any
    of the three attachment entry points, writes a single descriptor
    into a table that the helper allocated itself and still holds: the
    destination is never the null handle and never a table from
    elsewhere. *)
Theorem writes_go_to_the_helpers_own_tables d l r bp w dev write :
  reachable d l r bp w ->
  (dev, write) ∈ writes (log w) ->
  dstSet write <> VK_NULL_HANDLE
  /\ write_descriptorCount write = 1%N
  /\ exists slot,
       sets (impl w) !! slot = Some (dstSet write)
       /\ allocations slot (log w) = [dstSet write].
Proof.
  intros Hr Hin.
  pose proof (reachable_helper_inv _ _ _ _ _ Hr) as Hinv.
  assert (fresh_write w write) as (Hcount & slot & Hs & Hnz).
  { eapply steps_fresh_writes; [exact Hr|apply helper_inv_ctor| |exact Hin].
    by intros dev' write' []%elem_of_nil. }
  split; [done|]. split; [done|]. exists slot. split; [done|].
  by eapply held_table_is_allocated.
Qed.

(** *** Binds *)

Lemma run_call_preserves_binds c :
  is_publish c = false ->
  respects (preserved bind_of (fun _ => tt)) (run_call c).
Proof.
  intros Hc. destruct c; try done; simpl;
    unfold set_storage_image, set_combined_image_sampler, set_uniform_buffer,
      image_type_to_view_type, get_or_create_set;
    preserved_steps.
Qed.

Lemma elem_of_bind_events t e :
  e ∈ bind_events t ->
  e ∈ t /\ exists c b pl i s, e = CmdBindDescriptorSets c b pl i s.
Proof.
  unfold bind_events. intros (e' & Hin & He)%list_elem_of_omap.
  destruct e'; try done. injection He as <-. eauto 10.
Qed.

Lemma bind_events_published t i cmdbuf e :
  e ∈ bind_events (t ++ published i cmdbuf) ->
  e ∈ bind_events t \/ e ∈ published i cmdbuf.
Proof.
  unfold bind_events. rewrite omap_app, elem_of_app.
  intros [Hold|Hnew]; [by left|right].
  by apply (elem_of_bind_events (published i cmdbuf)) in Hnew as [Hin _].
Qed.

Lemma published_own_bind d l r bp w cmdbuf e :
  helper_inv d l r bp w ->
  e ∈ published (impl w) cmdbuf -> own_bind bp l w e.
Proof.
  intros Hi (set & s & _ & Hs & Hnz & ->)%elem_of_published.
  exists cmdbuf, set, s.
  by rewrite (inv_bind_point _ _ _ _ _ Hi), (inv_layout _ _ _ _ _ Hi).
Qed.

Lemma resumes_binds d l r bp c w w' e :
  helper_inv d l r bp w ->
  resumes (run_call c w) = Some w' ->
  e ∈ bind_events (log w') ->
  e ∈ bind_events (log w)
  \/ (sets (impl w') = sets (impl w) /\ own_bind bp l w e).
Proof.
  intros Hi Hres.
  assert (length (sets (impl w)) = nsets (impl w)) as Hlen
    by (destruct Hi; congruence).
  destruct (is_publish c) eqn:Hc.
  - destruct c; try done; simpl in Hres.
    + rewrite commit_unfold in Hres by done.
      destruct (committed (impl w)); [done|]. injection Hres as <-. simpl.
      intros [Hold|Hnew]%bind_events_published; [by left|right].
      split; [done|]. by eapply published_own_bind.
    + rewrite commit_frame_unfold in Hres by done.
      injection Hres as <-. simpl.
      intros [Hold|Hnew]%bind_events_published; [by left|right].
      split; [done|]. by eapply published_own_bind.
  - apply resumes_final in Hres as <-.
    destruct (preserved_final _ _ _ w (run_call_preserves_binds c Hc))
      as [Hl _].
    intros Hin. left. unfold bind_events in *.
    change (omap bind_of (log (final_world (run_call c w))) =
            omap bind_of (log w)) in Hl.
    by rewrite <- Hl.
Qed.

Lemma steps_own_binds d l r bp w0 w :
  steps w0 w -> helper_inv d l r bp w0 ->
  (forall e, e ∈ bind_events (log w0) -> own_bind bp l w0 e) ->
  forall e, e ∈ bind_events (log w) -> own_bind bp l w e.
Proof.
  induction 1 as [|w1 w2 w3 H12 IH H23]; [done|].
  intros Hi1 Hbase e Hin. destruct H23 as [c w2 w3 Hres].
  assert (helper_inv d l r bp w2) as Hi2 by by eapply steps_helper_inv.
  destruct (resumes_helper_inv _ _ _ _ _ _ _ Hi2 Hres) as [Hi3 Hext].
  destruct (resumes_binds _ _ _ _ _ _ _ _ Hi2 Hres Hin)
    as [Hold|[Hsets (cb & i & s & -> & Hs & Hnz)]].
  - destruct (IH Hi1 Hbase _ Hold) as (cb & i & s & -> & Hs & Hnz).
    exists cb, i, s. split; [done|]. split; [|done].
    by apply (table_persists d l r bp w2 w3).
  - exists cb, i, s. by rewrite Hsets.
Qed.

Lemma reachable_own_binds d l r bp w e :
  reachable d l r bp w -> e ∈ bind_events (log w) -> own_bind bp l w e.
Proof.
  intros Hr. eapply steps_own_binds; [exact Hr|apply helper_inv_ctor|].
  by intros e' []%elem_of_nil.
Qed.

(** X10. A helper handed out by a compute pipeline is built over that
    pipeline's device, layout and entry-point reflection and keeps them;
    every bind it ever records is at the compute bind point, on the
    pipeline's own layout, and binds at set index [i] the table the
    helper allocated for [i].  The same holds for a graphics pipeline
    with the graphics bind point and the pipeline's final layout. *)
Theorem create_bind_helper_fixes_the_bind_point :
  (forall p w,
     steps (ComputePipeline_create_bind_helper p) w ->
     device (impl w) = ComputePipeline.device p
     /\ layout (impl w) = ComputePipeline.layout p
     /\ reflected (impl w) = ComputePipeline.entry_point_reflected p
     /\ bind_point (impl w) = VK_PIPELINE_BIND_POINT_COMPUTE
     /\ forall e, e ∈ bind_events (log w) ->
          exists c i s,
            e = CmdBindDescriptorSets c VK_PIPELINE_BIND_POINT_COMPUTE
                  (pipeline_layout (ComputePipeline.layout p)) i s
            /\ allocations i (log w) = [s])
  /\ (forall p w,
        steps (GraphicsPipeline_create_bind_helper p) w ->
        device (impl w) = GraphicsPipeline.device_ p
        /\ layout (impl w) = GraphicsPipeline.layout p
        /\ reflected (impl w) = GraphicsPipeline.final_layout p
        /\ bind_point (impl w) = VK_PIPELINE_BIND_POINT_GRAPHICS
        /\ forall e, e ∈ bind_events (log w) ->
             exists c i s,
               e = CmdBindDescriptorSets c VK_PIPELINE_BIND_POINT_GRAPHICS
                     (pipeline_layout (GraphicsPipeline.layout p)) i s
               /\ allocations i (log w) = [s]).
Proof.
  assert (forall d l r bp w,
            reachable d l r bp w ->
            device (impl w) = d /\ layout (impl w) = l
            /\ reflected (impl w) = r /\ bind_point (impl w) = bp
            /\ forall e, e ∈ bind_events (log w) ->
                 exists c i s,
                   e = CmdBindDescriptorSets c bp (pipeline_layout l) i s
                   /\ allocations i (log w) = [s]) as Hgen.
  { intros d l r bp w Hr.
    pose proof (reachable_helper_inv _ _ _ _ _ Hr) as Hi.
    pose proof Hi as [Hd Hl Hrf Hbp _ _ _ _ _].
    do 4 (split; [done|]). intros e He.
    destruct (reachable_own_binds _ _ _ _ _ _ Hr He)
      as (c & i & s & -> & Hs & Hnz).
    exists c, i, s. split; [done|]. by eapply held_table_is_allocated. }
  split; intros p w Hs; by apply Hgen.
Qed.

(** ** Whole life cycles *)

Lemma get_or_create_set_preserves_fields set :
  respects
    (preserved no_event
       (fun i => (device i, cleanup i, committed i, layout i, bind_point i,
                  nsets i)))
    (get_or_create_set set).
Proof. unfold get_or_create_set. preserved_steps. Qed.

Lemma get_or_create_set_first set sl s w :
  sets (impl w) !! set = Some VK_NULL_HANDLE ->
  set_layouts (layout (impl w)) !! set = Some sl ->
  let info := {| descriptorPool := pool (impl w); descriptorSetCount := 1;
                 pSetLayouts := sl |} in
  drv_allocate_set (log w) info = Some s ->
  get_or_create_set set w =
    Return s
      {| impl := with_sets (<[set := s]> (sets (impl w))) (impl w);
         log := log w
                ++ [AllocateDescriptorSets (device (impl w)) info set (Some s)] |}.
Proof.
  intros Hs Hsl info Ha.
  rewrite get_or_create_set_unfold, Hs, decide_True, Hsl by done.
  simpl. fold info. by rewrite Ha.
Qed.

Lemma after_view_returns_full set dev view mk w1 w' :
  after_view set dev view mk w1 = Return tt w' ->
  exists dst w2,
    get_or_create_set set w1 = Return dst w2
    /\ w' = {| impl := with_cleanup
                         (cleanup (impl w2)
                          ++ [{| cap_deviceHandle := dev; cap_view := view |}])
                         (impl w2);
               log := log w2 ++ [UpdateDescriptorSets dev (mk dst)] |}.
Proof.
  unfold after_view. destruct (get_or_create_set set w1) as [dst w2| | |];
    try done.
  intros [= <-]. by exists dst, w2.
Qed.

Lemma omap_all_none {A B} (f : A -> option B) (xs : list A) :
  Forall (fun x => f x = None) xs -> omap f xs = [].
Proof. induction 1 as [|x xs Hx _ IH]; [done|]. simpl. by rewrite Hx. Qed.

Lemma published_single (i : Impl) cmdbuf set s :
  sets i = <[set := s]> (replicate (nsets i) VK_NULL_HANDLE) ->
  set < nsets i -> s <> VK_NULL_HANDLE ->
  published i cmdbuf =
    [CmdBindDescriptorSets cmdbuf (bind_point i) (pipeline_layout (layout i))
       set s].
Proof.
  intros Hsets Hlt Hnz. unfold published.
  assert (forall j, j <> set -> table_bind i cmdbuf j = None) as Hother.
  { intros j Hj. unfold table_bind.
    rewrite Hsets, list_lookup_insert_ne by done.
    destruct (replicate _ _ !! j) as [x|] eqn:Hx; [|done].
    apply lookup_replicate in Hx as [-> _]. by rewrite decide_True. }
  assert (table_bind i cmdbuf set =
          Some (CmdBindDescriptorSets cmdbuf (bind_point i)
                  (pipeline_layout (layout i)) set s)) as Hthis.
  { unfold table_bind.
    rewrite Hsets, list_lookup_insert_eq by by rewrite length_replicate.
    by rewrite decide_False. }
  replace (nsets i) with (set + S (nsets i - S set)) by lia.
  rewrite seq_app, omap_app. simpl. rewrite Hthis.
  rewrite !omap_all_none; [done| |].
  - apply Forall_forall. intros j Hj%elem_of_seq. apply Hother. lia.
  - apply Forall_forall. intros j Hj%elem_of_seq. apply Hother. lia.
Qed.

(** X11. A second storage image attached to a set and binding that
    already has one is accepted like the first.  The second call
    allocates nothing; it creates its own view and writes it to the same
    table and binding the first call wrote, and the release actions of
    both views stay registered, in order. *)
Theorem second_attachment_to_a_slot_is_accepted
    set binding img1 sub1 vt1 img2 sub2 vt2 w w1 w2 :
  set_storage_image set binding img1 sub1 vt1 w = Return tt w1 ->
  set_storage_image set binding img2 sub2 vt2 w1 = Return tt w2 ->
  let d := device (impl w) in
  exists dst v1 v2 info2 t,
    log w1 = t ++ [UpdateDescriptorSets d (storage_image_write dst binding v1)]
    /\ log w2 =
         log w1
         ++ [CreateImageView d info2 v2;
             UpdateDescriptorSets d (storage_image_write dst binding v2)]
    /\ cleanup (impl w2) =
         cleanup (impl w)
         ++ [{| cap_deviceHandle := d; cap_view := v1 |};
             {| cap_deviceHandle := d; cap_view := v2 |}]
    /\ sets (impl w2) = sets (impl w1)
    /\ sets (impl w1) !! set = Some dst.
Proof.
  intros H1 H2 d.
  rewrite set_storage_image_unfold in H1.
  destruct (committed (impl w)) eqn:Hc; [done|].
  destruct (resolved_view_type img1 vt1) as [fvt1|]; [|done].
  apply after_view_returns_full in H1 as (dst & wa & Hg1 & ->).
  destruct (preserved_final _ _ _
              {| impl := impl w;
                 log := log w
                        ++ [CreateImageView (device (impl w))
                              (storage_view_info img1 sub1 fvt1)
                              (drv_create_view (log w)
                                 (storage_view_info img1 sub1 fvt1))] |}
              (get_or_create_set_preserves_fields set)) as [_ Hf].
  rewrite Hg1 in Hf. simpl in Hf. injection Hf as Hdev Hcl Hcom _ _ _.
  apply get_or_create_set_returns in Hg1 as [Hs Hnz].
  rewrite set_storage_image_unfold in H2. simpl in H2.
  rewrite Hcom, Hc, Hdev in H2.
  destruct (resolved_view_type img2 vt2) as [fvt2|]; [|done].
  apply after_view_returns_full in H2 as (dst2 & wb & Hg2 & ->).
  rewrite get_or_create_set_allocated with (s := dst) in Hg2 by done.
  injection Hg2 as <- <-. simpl.
  eexists dst, _, _, _, _. rewrite Hcl. subst d.
  split; [reflexivity|]. split; [by rewrite <- app_assoc|].
  split; [by rewrite <- app_assoc|]. by split.
Qed.

(** X12. The whole life of a helper that serves one storage image.
    Built over any layout, given a storage image for a set the layout
    has and a device that grants the allocation, then committed and
    destroyed, the helper makes exactly these device calls after
    creating its pool: create the view; allocate one table, from its
    own pool, with the layout of that set; write the view into the
    binding with the general layout; bind that table at that set index
    at the helper's bind point; free the array; destroy the pool;
    destroy the view. *)
Theorem one_storage_image_from_build_to_teardown
    d l r bp set binding image sub vt fvt sl s cmdbuf :
  set < length (set_bindings r) ->
  set_layouts l !! set = Some sl ->
  resolved_view_type image vt = Some fvt ->
  let w0 := Impl_ctor d l r bp in
  let vinfo := storage_view_info image sub fvt in
  let view := drv_create_view (log w0) vinfo in
  let ainfo := {| descriptorPool := pool (impl w0); descriptorSetCount := 1;
                  pSetLayouts := sl |} in
  drv_allocate_set (log w0 ++ [CreateImageView d vinfo view]) ainfo = Some s ->
  exists w1 w2,
    set_storage_image set binding image sub vt w0 = Return tt w1
    /\ commit cmdbuf w1 = Return tt w2
    /\ DescriptorBindHelper_dtor w2 =
         log w0
         ++ [CreateImageView d vinfo view;
             AllocateDescriptorSets d ainfo set (Some s);
             UpdateDescriptorSets d (storage_image_write s binding view);
             CmdBindDescriptorSets cmdbuf bp (pipeline_layout l) set s;
             FreeSets;
             DestroyDescriptorPool d (pool (impl w0));
             DestroyImageView d view].
Proof.
  intros Hlt Hsl Hres w0 vinfo view ainfo Ha.
  pose proof (drv_allocate_set_nonnull _ _ _ Ha) as Hnz.
  eexists _, _. split; [|split].
  - rewrite set_storage_image_unfold. simpl. rewrite Hres.
    unfold after_view. simpl.
    erewrite get_or_create_set_first; [reflexivity| |exact Hsl|exact Ha].
    simpl. by apply lookup_replicate_2.
  - rewrite commit_unfold
      by (simpl; by rewrite length_insert, length_replicate).
    simpl. rewrite (published_single _ cmdbuf set s); [reflexivity|done..].
  - unfold DescriptorBindHelper_dtor. by rewrite Impl_dtor_unfold.
Qed.

(** X13. The whole life of a helper that serves one uniform buffer.
    The table is allocated on the helper's own device, while the slot
    write is issued on the device the caller passes to
    [set_uniform_buffer], whichever that is; the write carries the
    buffer's handle with the given offset and range.  No view is
    created, so the destructor frees the array and destroys the pool
    and nothing else. *)
Theorem one_uniform_buffer_from_build_to_teardown
    d l r bp device_ set binding buffer_ offset_ range_ sl s cmdbuf :
  set < length (set_bindings r) ->
  set_layouts l !! set = Some sl ->
  let w0 := Impl_ctor d l r bp in
  let ainfo := {| descriptorPool := pool (impl w0); descriptorSetCount := 1;
                  pSetLayouts := sl |} in
  drv_allocate_set (log w0) ainfo = Some s ->
  exists w1 w2,
    set_uniform_buffer device_ set binding buffer_ offset_ range_ w0
      = Return tt w1
    /\ commit cmdbuf w1 = Return tt w2
    /\ DescriptorBindHelper_dtor w2 =
         log w0
         ++ [AllocateDescriptorSets d ainfo set (Some s);
             UpdateDescriptorSets device_
               {| dstSet := s; dstBinding := binding;
                  write_descriptorCount := 1;
                  write_descriptorType := VK_DESCRIPTOR_TYPE_UNIFORM_BUFFER;
                  pImageInfo := None;
                  pBufferInfo :=
                    Some {| buffer := Buffer.handle buffer_;
                            offset := offset_; range := range_ |} |};
             CmdBindDescriptorSets cmdbuf bp (pipeline_layout l) set s;
             FreeSets;
             DestroyDescriptorPool d (pool (impl w0))].
Proof.
  intros Hlt Hsl w0 ainfo Ha.
  pose proof (drv_allocate_set_nonnull _ _ _ Ha) as Hnz.
  eexists _, _. split; [|split].
  - rewrite set_uniform_buffer_unfold.
    erewrite get_or_create_set_first; [reflexivity| |exact Hsl|exact Ha].
    simpl. by apply lookup_replicate_2.
  - rewrite commit_unfold
      by (simpl; by rewrite length_insert, length_replicate).
    simpl. rewrite (published_single _ cmdbuf set s); [reflexivity|done..].
  - unfold DescriptorBindHelper_dtor. by rewrite Impl_dtor_unfold.
Qed.

(** X14. The whole life of a helper that serves one combined image
    sampler: the view is the fixed 2D-array view of the image, the slot
    write carries the caller's sampler together with that view and the
    shader-read-only layout, and the view is destroyed last. *)
Theorem one_combined_image_sampler_from_build_to_teardown
    d l r bp set binding image sampler_ sl s cmdbuf :
  set < length (set_bindings r) ->
  set_layouts l !! set = Some sl ->
  let w0 := Impl_ctor d l r bp in
  let vinfo := combined_view_info image in
  let view := drv_create_view (log w0) vinfo in
  let ainfo := {| descriptorPool := pool (impl w0); descriptorSetCount := 1;
                  pSetLayouts := sl |} in
  drv_allocate_set (log w0 ++ [CreateImageView d vinfo view]) ainfo = Some s ->
  exists w1 w2,
    set_combined_image_sampler set binding image sampler_ w0 = Return tt w1
    /\ commit cmdbuf w1 = Return tt w2
    /\ DescriptorBindHelper_dtor w2 =
         log w0
         ++ [CreateImageView d vinfo view;
             AllocateDescriptorSets d ainfo set (Some s);
             UpdateDescriptorSets d
               {| dstSet := s; dstBinding := binding;
                  write_descriptorCount := 1;
                  write_descriptorType :=
                    VK_DESCRIPTOR_TYPE_COMBINED_IMAGE_SAMPLER;
                  pImageInfo :=
                    Some {| sampler := sampler_; imageView := view;
                            imageLayout :=
                              VK_IMAGE_LAYOUT_SHADER_READ_ONLY_OPTIMAL |};
                  pBufferInfo := None |};
             CmdBindDescriptorSets cmdbuf bp (pipeline_layout l) set s;
             FreeSets;
             DestroyDescriptorPool d (pool (impl w0));
             DestroyImageView d view].
Proof.
  intros Hlt Hsl w0 vinfo view ainfo Ha.
  pose proof (drv_allocate_set_nonnull _ _ _ Ha) as Hnz.
  eexists _, _. split; [|split].
  - rewrite set_combined_image_sampler_unfold. simpl.
    unfold after_view. simpl.
    erewrite get_or_create_set_first; [reflexivity| |exact Hsl|exact Ha].
    simpl. by apply lookup_replicate_2.
  - rewrite commit_unfold
      by (simpl; by rewrite length_insert, length_replicate).
    simpl. rewrite (published_single _ cmdbuf set s); [reflexivity|done..].
  - unfold DescriptorBindHelper_dtor. by rewrite Impl_dtor_unfold.
Qed.

(** *** A call and the other slots *)

Lemma respects_allocate_other_slot slot j dev info :
  slot <> j ->
  respects (preserved (allocation_at j) (fun i => sets i !! j))
    (vkAllocateDescriptorSets dev info slot).
Proof.
  intros Hne w0 w [Hl Hi]. unfold vkAllocateDescriptorSets.
  destruct (drv_allocate_set _ _); split; simpl;
    rewrite ?omap_app, ?Hl; simpl; rewrite ?decide_False by done;
    rewrite ?app_nil_r, ?list_lookup_insert_ne by done; done.
Qed.

Lemma get_or_create_set_other_slot set j :
  set <> j ->
  respects (preserved (allocation_at j) (fun i => sets i !! j))
    (get_or_create_set set).
Proof.
  intros Hne. unfold get_or_create_set.
  repeat first
    [ solve [auto with helper]
    | apply respects_allocate_other_slot; solve [done]
    | apply respects_bind; [|intros]
    | match goal with |- respects _ (match ?x with _ => _ end) => destruct x end
    | match goal with |- respects _ (if ?x then _ else _) => destruct x end ].
Qed.

Lemma run_call_other_slot c j :
  target_set c <> Some j ->
  respects (preserved (allocation_at j) (fun i => sets i !! j)) (run_call c).
Proof.
  intros Hne.
  assert (forall set, target_set c = Some set ->
            respects (preserved (allocation_at j) (fun i => sets i !! j))
              (get_or_create_set set)) as Hg.
  { intros set Hset. apply get_or_create_set_other_slot. congruence. }
  destruct c; simpl in *;
    unfold set_storage_image, set_combined_image_sampler, set_uniform_buffer,
      commit, commit_frame, for_range, bind_loop_body, image_type_to_view_type;
    repeat first
      [ solve [apply Hg; reflexivity]
      | solve [auto with helper]
      | apply respects_update_preserved; solve [done]
      | apply respects_cmd_bind_preserved; solve [done]
      | apply respects_push_cleanup_preserved; solve [done]
      | apply respects_create_view_preserved; solve [done]
      | apply respects_modify_preserved; solve [done]
      | apply respects_bind; [|intros]
      | apply respects_for_each; intros
      | match goal with |- respects _ (match ?x with _ => _ end) => destruct x end
      | match goal with |- respects _ (if ?x then _ else _) => destruct x end ].
Qed.

(** X15. Allocation is lazy and local.  A call that targets set index
    [i], however it ends, leaves every other slot of the table array as
    it was and allocates nothing for it; [commit] and [commit_frame]
    leave all slots alone.  So a set the caller never attaches to never
    gets a table. *)
Theorem a_call_touches_only_its_own_slot c w j :
  target_set c <> Some j ->
  sets (impl (final_world (run_call c w))) !! j = sets (impl w) !! j
  /\ allocations j (log (final_world (run_call c w))) = allocations j (log w).
Proof.
  intros Hne.
  destruct (preserved_final _ _ _ w (run_call_other_slot c j Hne)) as [Hl Hs].
  split; [done|]. exact Hl.
Qed.

End references.

Lemma writes_go_to_the_helpers_own_tables_witness :
  exists slot,
    sets (impl two_set_helper_attached) !! slot = Some 3%N
    /\ allocations slot (log two_set_helper_attached) = [3%N].
Proof.
  destruct (writes_go_to_the_helpers_own_tables (drv := numbering_driver)
              1 two_set_layout two_set_reflection
              VK_PIPELINE_BIND_POINT_COMPUTE two_set_helper_attached
              1 (storage_image_write 3 0 2)) as (_ & _ & Hslot).
  - apply reachable_two_set_helper_attached.
  - vm_compute. apply list_elem_of_here.
  - exact Hslot.
Defined.

Lemma create_bind_helper_fixes_the_bind_point_witness :
  exists c i s,
    CmdBindDescriptorSets 50 VK_PIPELINE_BIND_POINT_COMPUTE 100 0 3 =
      CmdBindDescriptorSets c VK_PIPELINE_BIND_POINT_COMPUTE
        (pipeline_layout (ComputePipeline.layout a_compute_pipeline)) i s
    /\ allocations i (log a_compute_helper_published) = [s].
Proof.
  destruct (create_bind_helper_fixes_the_bind_point (drv := numbering_driver))
    as [Hcompute _].
  destruct (Hcompute a_compute_pipeline a_compute_helper_published)
    as (_ & _ & _ & _ & Hbinds).
  - eapply steps_more; [eapply steps_more; [apply steps_here|]|].
    + apply (step_call (drv := numbering_driver)
               (Call_set_storage_image 0 0 image_2d None None)).
      reflexivity.
    + apply (step_call (drv := numbering_driver) (Call_commit 50)).
      reflexivity.
  - apply Hbinds. vm_compute. apply list_elem_of_here.
Defined.

Lemma second_attachment_to_a_slot_is_accepted_witness :
  exists dst v1 v2 info2 t,
    log two_set_helper_attached =
      t ++ [UpdateDescriptorSets 1 (storage_image_write dst 0 v1)]
    /\ log two_set_helper_attached_twice =
         log two_set_helper_attached
         ++ [CreateImageView 1 info2 v2;
             UpdateDescriptorSets 1 (storage_image_write dst 0 v2)]
    /\ cleanup (impl two_set_helper_attached_twice) =
         [] ++ [{| cap_deviceHandle := 1; cap_view := v1 |};
                {| cap_deviceHandle := 1; cap_view := v2 |}]
    /\ sets (impl two_set_helper_attached_twice) =
         sets (impl two_set_helper_attached)
    /\ sets (impl two_set_helper_attached) !! 0 = Some dst.
Proof.
  apply (second_attachment_to_a_slot_is_accepted (drv := numbering_driver)
           0 0 image_2d None None image_3d None None
           (two_set_helper numbering_driver)
           two_set_helper_attached two_set_helper_attached_twice);
    reflexivity.
Defined.

Lemma one_storage_image_from_build_to_teardown_witness :
  exists w1 w2,
    set_storage_image (drv := numbering_driver) 0 0 image_2d None None
      (two_set_helper numbering_driver) = Return tt w1
    /\ commit 50 w1 = Return tt w2
    /\ DescriptorBindHelper_dtor w2 =
         log (two_set_helper numbering_driver)
         ++ [CreateImageView 1
               (storage_view_info image_2d None VK_IMAGE_VIEW_TYPE_2D) 2;
             AllocateDescriptorSets 1
               {| descriptorPool := 1; descriptorSetCount := 1;
                  pSetLayouts := 101 |} 0 (Some 3%N);
             UpdateDescriptorSets 1 (storage_image_write 3 0 2);
             CmdBindDescriptorSets 50 VK_PIPELINE_BIND_POINT_COMPUTE 100 0 3;
             FreeSets;
             DestroyDescriptorPool 1 1;
             DestroyImageView 1 2].
Proof.
  apply (one_storage_image_from_build_to_teardown (drv := numbering_driver)
           1 two_set_layout two_set_reflection VK_PIPELINE_BIND_POINT_COMPUTE
           0 0 image_2d None None VK_IMAGE_VIEW_TYPE_2D 101%N 3%N 50%N);
    [simpl; lia|reflexivity..].
Defined.

Lemma one_uniform_buffer_from_build_to_teardown_witness :
  exists w1 w2,
    set_uniform_buffer (drv := numbering_driver) 9 1 0 a_buffer 0 64
      (two_set_helper numbering_driver) = Return tt w1
    /\ commit 50 w1 = Return tt w2
    /\ DescriptorBindHelper_dtor w2 =
         log (two_set_helper numbering_driver)
         ++ [AllocateDescriptorSets 1
               {| descriptorPool := 1; descriptorSetCount := 1;
                  pSetLayouts := 102 |} 1 (Some 2%N);
             UpdateDescriptorSets 9 (uniform_buffer_write 2 0 a_buffer 0 64);
             CmdBindDescriptorSets 50 VK_PIPELINE_BIND_POINT_COMPUTE 100 1 2;
             FreeSets;
             DestroyDescriptorPool 1 1].
Proof.
  apply (one_uniform_buffer_from_build_to_teardown (drv := numbering_driver)
           1 two_set_layout two_set_reflection VK_PIPELINE_BIND_POINT_COMPUTE
           9 1 0 a_buffer 0 64 102%N 2%N 50%N);
    [simpl; lia|reflexivity..].
Defined.

Lemma one_combined_image_sampler_from_build_to_teardown_witness :
  exists w1 w2,
    set_combined_image_sampler (drv := numbering_driver) 0 0 image_3d 77
      (two_set_helper numbering_driver) = Return tt w1
    /\ commit 50 w1 = Return tt w2
    /\ DescriptorBindHelper_dtor w2 =
         log (two_set_helper numbering_driver)
         ++ [CreateImageView 1 (combined_view_info image_3d) 2;
             AllocateDescriptorSets 1
               {| descriptorPool := 1; descriptorSetCount := 1;
                  pSetLayouts := 101 |} 0 (Some 3%N);
             UpdateDescriptorSets 1 (combined_image_sampler_write 3 0 2 77);
             CmdBindDescriptorSets 50 VK_PIPELINE_BIND_POINT_COMPUTE 100 0 3;
             FreeSets;
             DestroyDescriptorPool 1 1;
             DestroyImageView 1 2].
Proof.
  apply (one_combined_image_sampler_from_build_to_teardown
           (drv := numbering_driver)
           1 two_set_layout two_set_reflection VK_PIPELINE_BIND_POINT_COMPUTE
           0 0 image_3d 77 101%N 3%N 50%N);
    [simpl; lia|reflexivity..].
Defined.

Lemma a_call_touches_only_its_own_slot_witness :
  sets (impl two_set_helper_attached) !! 1 = Some VK_NULL_HANDLE
  /\ allocations 1 (log two_set_helper_attached) = [].
Proof.
  destruct (a_call_touches_only_its_own_slot (drv := numbering_driver)
              (Call_set_storage_image 0 0 image_2d None None)
              (two_set_helper numbering_driver) 1) as [Hslot Hlog];
    [discriminate|].
  split; [exact Hslot|exact Hlog].
Defined.
